(** * BaseEntity: filter registration and filter-clause compilation

    A shallow embedding of [src/storage/entities/base_entity.js]
    ([addFilter], [getFilters], [parseFilters]) and of
    [getMaxAndAvgHeight] of the network utilities, together with the
    properties that the specification states about the filter engine.

    Modelling choices, all local to this file:
    - [this.filters] is a plain JS object ([{}]) holding strings: its own
      properties in the order they were created ([JSObject]).  Reading
      [this.filters[key]] falls back to [Object.prototype]
      ([getProperty]), assigning to [__proto__] is swallowed by the setter
      [Object.prototype] has for it ([assignProperty]), and [Object.keys]
      lists array-index keys first, in ascending order ([ownEnumerable]).
      The code runs on Node.js: a built-in function prints as V8 prints it.
    - A method runs against the entity and either returns or throws; the
      entity it leaves behind is kept in both cases ([M]).
    - A criteria object is the list of its own properties in the order
      [Object.keys] enumerates them.
    - The query adapter ([this.adapter.parseQueryComponent]) is external: it
      is a parameter of the compiler.  So are the addition and the division
      of JavaScript numbers in [getMaxAndAvgHeight]. *)

From stdpp Require Import gmap strings list fin_maps sorting.

(** ** Strings of the template literals *)

(** The double-quote character that surrounds column names. *)
Definition dquote : string := String (Ascii.ascii_of_nat 34) EmptyString.

(** ** Plain objects *)

(** The own properties of an object that holds strings, in creation order. *)
Record JSObject : Type := mkObject { properties : list (string * string) }.

Fixpoint ownValue (key : string) (ps : list (string * string)) : option string :=
  match ps with
  | [] => None
  | (k, v) :: ps' => if String.eqb key k then Some v else ownValue key ps'
  end.

(** Creating the own property [key], or giving it a new value where it stands. *)
Fixpoint defineOwn (key value : string) (ps : list (string * string))
    : list (string * string) :=
  match ps with
  | [] => [(key, value)]
  | (k, v) :: ps' =>
      if String.eqb key k then (k, value) :: ps'
      else (k, v) :: defineOwn key value ps'
  end.

(** [o !! key] is the own property [key] of [o]; [<[key := value]> o]
    creates or updates it; [∅] is [{}]. *)
Global Instance object_lookup : Lookup string string JSObject :=
  λ key o, ownValue key (properties o).
Global Instance object_insert : Insert string string JSObject :=
  λ key value o, mkObject (defineOwn key value (properties o)).
Global Instance object_empty : Empty JSObject := mkObject [].

(** What a property read may give here. *)
Inductive jsvalue : Type :=
  | JUndefined
  | JString (s : string)
  | JFunction (name : string)
  | JObjectPrototype.

(** The function-valued properties of [Object.prototype] that are named
    after themselves ([constructor] is the function [Object]). *)
Definition objectPrototypeFunctions : list string :=
  [ "__defineGetter__"; "__defineSetter__"; "hasOwnProperty";
    "__lookupGetter__"; "__lookupSetter__"; "isPrototypeOf";
    "propertyIsEnumerable"; "toString"; "valueOf"; "toLocaleString" ].

(** [Object.prototype[key]]; the getter of [__proto__] gives the prototype
    of the object read, which is [Object.prototype] itself. *)
Definition objectPrototype (key : string) : jsvalue :=
  if String.eqb key "__proto__" then JObjectPrototype
  else if String.eqb key "constructor" then JFunction "Object"
  else if bool_decide (key ∈ objectPrototypeFunctions) then JFunction key
  else JUndefined.

(** [o[key]] *)
Definition getProperty (o : JSObject) (key : string) : jsvalue :=
  match o !! key with
  | Some s => JString s
  | None => objectPrototype key
  end.

(** [o[key] = value] for a string [value]: an own property is updated;
    otherwise the setter that [Object.prototype] has for [__proto__] ignores
    a string, and every other key becomes a new own property. *)
Definition assignProperty (key value : string) (o : JSObject) : JSObject :=
  match o !! key with
  | Some _ => <[key := value]> o
  | None => if String.eqb key "__proto__" then o else <[key := value]> o
  end.

(** *** Array indices and the order of [Object.keys] *)

Definition isDigit (c : Ascii.ascii) : bool :=
  (48 <=? Ascii.N_of_ascii c)%N && (Ascii.N_of_ascii c <=? 57)%N.

Fixpoint allDigits (s : string) : bool :=
  match s with
  | EmptyString => true
  | String c s' => isDigit c && allDigits s'
  end.

Fixpoint decimalValue (acc : N) (s : string) : N :=
  match s with
  | EmptyString => acc
  | String c s' => decimalValue (acc * 10 + (Ascii.N_of_ascii c - 48)) s'
  end.

(** A canonical numeric string: digits only, no leading zero but in ["0"]. *)
Definition canonicalNumeric (s : string) : bool :=
  match s with
  | EmptyString => false
  | String c rest =>
      allDigits s && (negb (Ascii.eqb c (Ascii.ascii_of_nat 48)) || String.eqb rest "")
  end.

(** An array index is a canonical numeric string below 2^32 - 1. *)
Definition arrayIndex (s : string) : option N :=
  if canonicalNumeric s && (decimalValue 0 s <? 4294967295)%N
  then Some (decimalValue 0 s) else None.

Definition indexLe {V} (p q : string * V) : Prop :=
  (default 0 (arrayIndex p.1) ≤ default 0 (arrayIndex q.1))%N.

Global Instance indexLe_dec {V} : RelDecision (@indexLe V).
Proof. intros p q. unfold indexLe. apply _. Defined.

(** The own properties as [Object.keys] goes through them: the array
    indices in ascending order, then the other keys in creation order. *)
Definition ownEnumerable {V} (created : list (string * V)) : list (string * V) :=
  merge_sort indexLe (filter (λ p, is_Some (arrayIndex p.1)) created)
  ++ filter (λ p, ¬ is_Some (arrayIndex p.1)) created.

(** [Object.keys(o)] *)
Definition objectKeys (o : JSObject) : list string := (ownEnumerable (properties o)).*1.

(** ** Completions, errors, and the method monad *)

(** The error classes the module imports from [../errors]. *)
Inductive error : Type :=
  | ImplementationPendingError
  | NonSupportedFilterTypeError (filterType : string).

Inductive completion (A : Type) : Type :=
  | Normal (a : A)
  | Throw (e : error).
Arguments Normal {A} a.
Arguments Throw {A} e.

(** [options] of [addFilter]; [realName] absent is [None]. *)
Record Options : Type := mkOptions { realName : option string }.

(** The fields the constructor initialises. *)
Record BaseEntity : Type := mkEntity {
  defaultFieldSet : option string;
  fields : JSObject;
  filters : JSObject
}.

(** [constructor()] *)
Definition constructor : BaseEntity :=
  {| defaultFieldSet := None; fields := ∅; filters := ∅ |}.

Definition set_filters (f : JSObject → JSObject) (this : BaseEntity) : BaseEntity :=
  {| defaultFieldSet := defaultFieldSet this;
     fields := fields this;
     filters := f (filters this) |}.

(** A method body: it reads and mutates [this], then returns or throws. *)
Definition M (A : Type) : Type := BaseEntity → completion A * BaseEntity.

Definition ret {A} (a : A) : M A := λ this, (Normal a, this).
Definition throw {A} (e : error) : M A := λ this, (Throw e, this).
Definition bind {A B} (m : M A) (k : A → M B) : M B :=
  λ this,
    match m this with
    | (Normal a, this') => k a this'
    | (Throw e, this') => (Throw e, this')
    end.

Notation "m1 ;; m2" := (bind m1 (λ _, m2))
  (at level 100, m2 at level 200, right associativity).

(** The entity a method leaves behind, and what it completed with. *)
Definition outcome {A} (r : completion A * BaseEntity) : completion A := r.1.
Definition after {A} (r : completion A * BaseEntity) : BaseEntity := r.2.

(** ** filter_types *)

(** Modelled from the spec: the module [./filter_types] is not among the
    sources; the specification names the four value types BOOLEAN, TEXT,
    NUMBER and BINARY and writes an unsupported one as the string "DATE",
    so each constant is the string of its name. *)
Module filterTypes.
Definition BOOLEAN : string := "BOOLEAN".
Definition TEXT : string := "TEXT".
Definition NUMBER : string := "NUMBER".
Definition BINARY : string := "BINARY".
End filterTypes.

(** ** addFilter *)

(** [this.filters[filterAlias] = condition] *)
Definition setFilter (filterAlias condition : string) : M unit :=
  λ this, (Normal tt, set_filters (assignProperty filterAlias condition) this).

(** [options.realName || filterName]: an absent or empty [realName] is falsy. *)
Definition fieldNameOf (options : Options) (filterName : string) : string :=
  match realName options with
  | Some (String c s) => String c s
  | Some EmptyString | None => filterName
  end.

(** The template literals of [addFilter], one definition per shape.
    [`"${fieldName}" OP $\{${filterName}\}`] *)
Definition cmpTemplate (fieldName op filterName : string) : string :=
  dquote +:+ fieldName +:+ dquote +:+ " " +:+ op +:+ " ${" +:+ filterName +:+ "}".

(** [`"${filterName}" IN ($\{${filterName}_in:csv\})`] *)
Definition inTemplate (filterName : string) : string :=
  dquote +:+ filterName +:+ dquote +:+ " IN (${" +:+ filterName +:+ "_in:csv})".

(** [`"${filterName}" LIKE $\{${filterName}_like\}`] *)
Definition likeTemplate (filterName : string) : string :=
  dquote +:+ filterName +:+ dquote +:+ " LIKE ${" +:+ filterName +:+ "_like}".

(** [`"${fieldName}" OP DECODE($\{${filterName}\}, 'hex')`] *)
Definition decodeTemplate (fieldName op filterName : string) : string :=
  dquote +:+ fieldName +:+ dquote +:+ " " +:+ op +:+ " DECODE(${"
    +:+ filterName +:+ "}, 'hex')".

(** [addFilter(filterName, filterType = filterTypes.NUMBER, options = {})];
    an omitted argument is [None]. *)
Definition addFilter (filterName : string) (filterType : option string)
    (options : option Options) : M unit :=
  let filterType := default filterTypes.NUMBER filterType in
  let options := default (mkOptions None) options in
  let fieldName := fieldNameOf options filterName in
  if String.eqb filterType filterTypes.BOOLEAN then
    setFilter filterName (cmpTemplate fieldName "=" filterName) ;;
    setFilter (filterName +:+ "_eql") (cmpTemplate fieldName "=" filterName) ;;
    setFilter (filterName +:+ "_neql") (cmpTemplate fieldName "<>" filterName)
  else if String.eqb filterType filterTypes.TEXT then
    setFilter filterName (cmpTemplate fieldName "=" filterName) ;;
    setFilter (filterName +:+ "_eql") (cmpTemplate fieldName "=" filterName) ;;
    setFilter (filterName +:+ "_neql") (cmpTemplate fieldName "<>" filterName) ;;
    setFilter (filterName +:+ "_in") (inTemplate filterName) ;;
    setFilter (filterName +:+ "_like") (likeTemplate filterName)
  else if String.eqb filterType filterTypes.NUMBER then
    setFilter filterName (cmpTemplate fieldName "=" filterName) ;;
    setFilter (filterName +:+ "_eql") (cmpTemplate fieldName "=" filterName) ;;
    setFilter (filterName +:+ "_neql") (cmpTemplate fieldName "<>" filterName) ;;
    setFilter (filterName +:+ "_gt") (cmpTemplate fieldName ">" filterName) ;;
    setFilter (filterName +:+ "_gte") (cmpTemplate fieldName ">=" filterName) ;;
    setFilter (filterName +:+ "_lt") (cmpTemplate fieldName "<" filterName) ;;
    setFilter (filterName +:+ "_lte") (cmpTemplate fieldName "<=" filterName) ;;
    setFilter (filterName +:+ "_in") (inTemplate filterName)
  else if String.eqb filterType filterTypes.BINARY then
    setFilter filterName (decodeTemplate fieldName "=" filterName) ;;
    setFilter (filterName +:+ "_eql") (decodeTemplate fieldName "=" filterName) ;;
    setFilter (filterName +:+ "_neql") (decodeTemplate fieldName "<>" filterName)
  else
    throw (NonSupportedFilterTypeError filterType).

(** [getFilters()]: [Object.keys(this.filters)] *)
Definition getFilters (this : BaseEntity) : list string := objectKeys (filters this).

(** ** parseFilters *)

(** [Array.prototype.join]: an element that is [undefined] ([None]) is
    rendered as the empty string, any other as its string. *)
Definition joinElement (o : option string) : string := default "" o.

Fixpoint join (sep : string) (l : list (option string)) : string :=
  match l with
  | [] => ""
  | x :: xs =>
      match xs with
      | [] => joinElement x
      | _ :: _ => joinElement x +:+ sep +:+ join sep xs
      end
  end.

(** The string [join] makes of an element: none for [undefined]; a built-in
    function prints as [function name() { [native code] }], and
    [Object.prototype] as [[object Object]]. *)
Definition joined (v : jsvalue) : option string :=
  match v with
  | JUndefined => None
  | JString s => Some s
  | JFunction name => Some ("function " +:+ name +:+ "() { [native code] }")
  | JObjectPrototype => Some "[object Object]"
  end.

(** [this.filters[key]], as an element of the array that is joined. *)
Definition filterAt (this : BaseEntity) (key : string) : option string :=
  joined (getProperty (filters this) key).

(** A criteria group: its own properties in [Object.keys] order. *)
Abbreviation Group Value := (list (string * Value)).

Section Compiler.
(** Caller-supplied values are opaque to the compiler. *)
Context {Value : Type}.

(** What [parseFilters] may be handed: an array of groups, a single group,
    or a value that is neither an array nor an object (for instance
    [undefined] when the caller passes no filters). *)
Inductive Criteria : Type :=
  | CGroupList (groups : list (Group Value))
  | CGroup (group : Group Value)
  | CNotObject.

(** [this.adapter.parseQueryComponent] *)
Variable parseQueryComponent : string → Criteria → string.

(** [Object.keys(object)] *)
Definition keys (object : Group Value) : list string := object.*1.

(** [object => Object.keys(object).map(key => this.filters[key]).join(' AND ')] *)
Definition parseFilterObject (this : BaseEntity) (object : Group Value) : string :=
  join " AND " (filterAt this <$> keys object).

(** The value of the local [filterString] when line 174 tests it;
    [None] is its initial [null]. *)
Definition filterString (this : BaseEntity) (filters : Criteria) : option string :=
  match filters with
  | CGroupList groups =>
      Some (join " OR "
              ((λ filterObject, Some (parseFilterObject this filterObject))
                 <$> groups))
  | CGroup group => Some (parseFilterObject this group)
  | CNotObject => None
  end.

(** [parseFilters(filters)] *)
Definition parseFilters (filters : Criteria) : M string :=
  λ this,
    match filterString this filters with
    | Some (String c s) =>
        (Normal ("WHERE " +:+ parseQueryComponent (String c s) filters), this)
    | Some EmptyString | None => (Normal "", this)
    end.
End Compiler.

Arguments Criteria : clear implicits.

(** ** The registry as a table *)

(** The variant table of the specification (section 4.1), written out with
    the templates [addFilter] gives each variant, in registration order.
    [registers_table] below shows that [addFilter] performs exactly these
    assignments; [None] stands for an unsupported type. *)
Definition variantTable (filterType filterName fieldName : string)
    : option (list (string * string)) :=
  if String.eqb filterType filterTypes.BOOLEAN then
    Some [ (filterName, cmpTemplate fieldName "=" filterName);
           (filterName +:+ "_eql", cmpTemplate fieldName "=" filterName);
           (filterName +:+ "_neql", cmpTemplate fieldName "<>" filterName) ]
  else if String.eqb filterType filterTypes.TEXT then
    Some [ (filterName, cmpTemplate fieldName "=" filterName);
           (filterName +:+ "_eql", cmpTemplate fieldName "=" filterName);
           (filterName +:+ "_neql", cmpTemplate fieldName "<>" filterName);
           (filterName +:+ "_in", inTemplate filterName);
           (filterName +:+ "_like", likeTemplate filterName) ]
  else if String.eqb filterType filterTypes.NUMBER then
    Some [ (filterName, cmpTemplate fieldName "=" filterName);
           (filterName +:+ "_eql", cmpTemplate fieldName "=" filterName);
           (filterName +:+ "_neql", cmpTemplate fieldName "<>" filterName);
           (filterName +:+ "_gt", cmpTemplate fieldName ">" filterName);
           (filterName +:+ "_gte", cmpTemplate fieldName ">=" filterName);
           (filterName +:+ "_lt", cmpTemplate fieldName "<" filterName);
           (filterName +:+ "_lte", cmpTemplate fieldName "<=" filterName);
           (filterName +:+ "_in", inTemplate filterName) ]
  else if String.eqb filterType filterTypes.BINARY then
    Some [ (filterName, decodeTemplate fieldName "=" filterName);
           (filterName +:+ "_eql", decodeTemplate fieldName "=" filterName);
           (filterName +:+ "_neql", decodeTemplate fieldName "<>" filterName) ]
  else None.

(** The suffixes of the variants of each type, as the specification lists them. *)
Definition variantSuffixes (filterType : string) : list string :=
  if String.eqb filterType filterTypes.BOOLEAN then [""; "_eql"; "_neql"]
  else if String.eqb filterType filterTypes.TEXT then
    [""; "_eql"; "_neql"; "_in"; "_like"]
  else if String.eqb filterType filterTypes.NUMBER then
    [""; "_eql"; "_neql"; "_gt"; "_gte"; "_lt"; "_lte"; "_in"]
  else if String.eqb filterType filterTypes.BINARY then [""; "_eql"; "_neql"]
  else [].

Definition supportedTypes : list string :=
  [filterTypes.BOOLEAN; filterTypes.TEXT; filterTypes.NUMBER; filterTypes.BINARY].

(** Assigning the rows of a table one after the other. *)
Definition assignAll (tbl : list (string * string)) (m : JSObject) : JSObject :=
  foldl (λ m kv, assignProperty kv.1 kv.2 m) m tbl.

(** What the specification asks of a GroupList: every group clause in
    parentheses, joined with OR.  Used only to compare with [filterString]. *)
Definition parenthesizedGroupList {Value} (this : BaseEntity)
    (groups : list (Group Value)) : string :=
  join " OR "
    ((λ g, Some ("(" +:+ parseFilterObject this g +:+ ")")) <$> groups).

(** Replacing every caller-supplied value of a criteria. *)
Definition groupMap {V W} (f : V → W) (g : Group V) : Group W :=
  (λ kv, (kv.1, f kv.2)) <$> g.

Definition criteriaMap {V W} (f : V → W) (c : Criteria V) : Criteria W :=
  match c with
  | CGroupList groups => CGroupList (groupMap f <$> groups)
  | CGroup group => CGroup (groupMap f group)
  | CNotObject => CNotObject
  end.

(** The shape of a criteria: its keys in their Group / GroupList structure. *)
Definition shape {V} (c : Criteria V) : Criteria unit := criteriaMap (λ _, tt) c.

(** All keys a criteria mentions. *)
Definition criteriaKeys {V} (c : Criteria V) : list string :=
  match c with
  | CGroupList groups => concat (keys <$> groups)
  | CGroup group => keys group
  | CNotObject => []
  end.

(** What [parseFilters] returns for a given value of [filterString]. *)
Definition whereOf {V} (parseQueryComponent : string → Criteria V → string)
    (clause : option string) (c : Criteria V) : string :=
  match clause with
  | Some (String a s) => "WHERE " +:+ parseQueryComponent (String a s) c
  | Some EmptyString | None => ""
  end.

(** A registered template: the value of an own property of the filter map. *)
Definition registeredTemplate (this : BaseEntity) (t : string) : Prop :=
  ∃ key, filters this !! key = Some t.

(** The clause consists of registered templates and separators only: one
    template per key, AND between the templates of a group, OR between the
    groups. *)
Definition templatesOnly {V} (this : BaseEntity) (c : Criteria V) : Prop :=
  match c with
  | CGroupList groups =>
      ∃ tss : list (list string),
        Forall2 (λ g ts, length ts = length g
                         ∧ Forall (registeredTemplate this) ts) groups tss
        ∧ filterString this c
          = Some (join " OR "
                    ((λ ts, Some (join " AND " (Some <$> ts))) <$> tss))
  | CGroup g =>
      ∃ ts : list string,
        length ts = length g
        ∧ Forall (registeredTemplate this) ts
        ∧ filterString this c = Some (join " AND " (Some <$> ts))
  | CNotObject => filterString this c = None
  end.

(** The object a caller gets from creating the properties [supplied], with
    distinct keys, in that order, as [Object.keys] goes through it. *)
Definition suppliedGroup {V} (supplied : list (string * V)) : Group V :=
  ownEnumerable supplied.

(** ** Statements about a declaration *)

(** The rows [addFilter] assigns for a declaration; empty for an unsupported type. *)
Definition rowsOf (X ty : string) (o : option Options) : list (string * string) :=
  default [] (variantTable ty X (fieldNameOf (default (mkOptions None) o) X)).

(** The type a declaration is made with: an omitted one is NUMBER. *)
Definition typeOf (filterType : option string) : string :=
  default filterTypes.NUMBER filterType.

(** A declaration registers exactly the names [names]: it returns normally,
    the names are pairwise distinct, they are what is added to the registered
    names, each of them reads as a string template afterwards, no other key
    of the filter map is touched, and on a fresh entity [getFilters] lists
    exactly these names, in this order. *)
Definition registersExactly (X ty : string) (o : option Options)
    (this : BaseEntity) (names : list string) : Prop :=
  let r := addFilter X (Some ty) o this in
  outcome r = Normal tt
  ∧ NoDup names
  ∧ (∀ k, k ∈ getFilters (after r) ↔ k ∈ names ∨ k ∈ getFilters this)
  ∧ (∀ k, k ∈ names →
       ∃ t, filters (after r) !! k = Some t
            ∧ getProperty (filters (after r)) k = JString t)
  ∧ (∀ k, k ∉ names → filters (after r) !! k = filters this !! k)
  ∧ getFilters (after (addFilter X (Some ty) o constructor)) = names.

(** ** Invariant of the filter map *)

(** Every registered template starts with the quoted column: the shape all
    template literals of [addFilter] share. *)
Definition templatesQuoted (this : BaseEntity) : Prop :=
  ∀ k t, filters this !! k = Some t → ∃ rest, t = dquote +:+ rest.

(** ** Network height summary ([getMaxAndAvgHeight] of the network utilities) *)

(** What the function reads of a peer status: its block height, an integer. *)
Record PeerStatus : Type := mkPeerStatus { height : Z }.

Section HeightSummary.
(** The sum of the heights is a JavaScript number, a double: its addition
    and its division are not defined here, they are parameters. *)
Context {Double : Type}.
(** [0] *)
Variable zero : Double.
(** [heightSum += peerStatus.height] *)
Variable plusHeight : Double → Z → Double.
(** [heightSum / totalPeers] *)
Variable dividedBy : Double → nat → Double.

Record HeightSummary : Type := mkHeightSummary {
  maxHeight : Z;
  averageHeight : Double
}.

(** The body of the [forEach]: the pair is [(maxHeight, heightSum)]. *)
Definition heightStep (acc : Z * Double) (peerStatus : PeerStatus) : Z * Double :=
  let maxHeight := if (height peerStatus >? acc.1)%Z then height peerStatus else acc.1 in
  (maxHeight, plusHeight acc.2 (height peerStatus)).

(** [getMaxAndAvgHeight(peerStatusList)] *)
Definition getMaxAndAvgHeight (peerStatusList : list PeerStatus) : HeightSummary :=
  let totalPeers := length peerStatusList in
  let acc := foldl heightStep (1%Z, zero) peerStatusList in
  {| maxHeight := acc.1; averageHeight := dividedBy acc.2 totalPeers |}.
End HeightSummary.

(** ** Concrete entities and criteria used by the examples *)

(** An entity that declared [amount] with the default type. *)
Definition amountEntity : BaseEntity :=
  after (addFilter "amount" None None constructor).

(** An entity that declared [1] and then [amount], both with the default type. *)
Definition oneAndAmountEntity : BaseEntity :=
  after (addFilter "amount" None None (after (addFilter "1" None None constructor))).

(** The adapter that hands the template back unchanged. *)
Definition echoAdapter (template : string) (_ : Criteria nat) : string := template.

(** [{amount: 5, fee: 1}]: [fee] is not a registered variant. *)
Definition amountAndFee : Criteria nat := CGroup [("amount", 5); ("fee", 1)].

(** [[{amount: 5}, {amount_gt: 7, amount_lt: 9}]] *)
Definition twoGroups : list (Group nat) :=
  [ [("amount", 5)]; [("amount_gt", 7); ("amount_lt", 9)] ].

(** ** Auxiliary notions for the proofs *)

(** Whether the last character of [s] is [_], as it is of [__proto__] and
    of no variant suffix. *)
Fixpoint endsWithUnderscore (s : string) : bool :=
  match s with
  | EmptyString => false
  | String c EmptyString => Ascii.eqb c (Ascii.ascii_of_nat 95)
  | String _ s' => endsWithUnderscore s'
  end.

(** After [o[k] = v], either [k] is an own property with value [v], or [k]
    is [__proto__], which [o] does not own, and nothing happened. *)
Definition settled (o : JSObject) (kv : string * string) : Prop :=
  o !! kv.1 = Some kv.2 ∨ (kv.1 = "__proto__" ∧ o !! kv.1 = None).

(** * Properties *)

(** ** Strings *)

Lemma append_empty_r (s : string) : s +:+ "" = s.
Proof. induction s as [|c s IH]; [done|]. unfold String.app in *. simpl. by rewrite IH. Qed.

Lemma append_assoc (a b c : string) : (a +:+ b) +:+ c = a +:+ b +:+ c.
Proof.
  induction a as [|x a IH]; [done|].
  unfold String.app in *. simpl. by rewrite IH.
Qed.

Lemma append_length (a b : string) :
  String.length (a +:+ b) = String.length a + String.length b.
Proof.
  induction a as [|x a IH]; [done|].
  unfold String.app in *. simpl. by rewrite IH.
Qed.

Lemma append_inv_l (x a b : string) : x +:+ a = x +:+ b → a = b.
Proof. apply (inj (String.app x)). Qed.

(** The names [X +:+ suffix] are pairwise distinct when the suffixes are. *)
Lemma NoDup_variant_names (X : string) (suffixes : list string) :
  NoDup suffixes → NoDup (String.app X <$> suffixes).
Proof. apply (NoDup_fmap_2 (String.app X)). Qed.

Lemma append_last_differs (a b : string) (c1 c2 : Ascii.ascii) :
  c1 ≠ c2 → a +:+ String c1 "" ≠ b +:+ String c2 "".
Proof.
  intros Hc. revert b. unfold String.app.
  induction a as [|x a IH]; intros [|y b]; simpl.
  - intros [= ?]. done.
  - intros [= _ H]. by destruct b.
  - intros [= _ H]. by destruct a.
  - intros [= _ H]. by apply (IH b).
Qed.

Lemma append_nonempty (X s : string) : s ≠ "" → X +:+ s ≠ "".
Proof.
  intros Hs H. apply (f_equal String.length) in H.
  rewrite append_length in H. destruct s; [done|]. simpl in H. lia.
Qed.

Lemma endsWithUnderscore_append (X s : string) :
  s ≠ "" → endsWithUnderscore (X +:+ s) = endsWithUnderscore s.
Proof.
  intros Hs. induction X as [|c X IH]; [done|].
  change (String c X +:+ s) with (String c (X +:+ s)).
  pose proof (append_nonempty X s Hs) as Hne.
  rewrite <- IH. by destruct (X +:+ s).
Qed.

Lemma suffixed_not_proto (X s : string) :
  s ≠ "" → endsWithUnderscore s = false → X +:+ s ≠ "__proto__".
Proof.
  intros Hs He Heq. apply (f_equal endsWithUnderscore) in Heq.
  rewrite endsWithUnderscore_append, He in Heq by done. done.
Qed.

Lemma allDigits_append (a b : string) :
  allDigits (a +:+ b) = allDigits a && allDigits b.
Proof.
  unfold String.app. induction a as [|c a IH]; [done|].
  simpl. rewrite IH. by rewrite andb_assoc.
Qed.

Lemma arrayIndex_allDigits (s : string) : is_Some (arrayIndex s) → allDigits s = true.
Proof.
  unfold arrayIndex, canonicalNumeric. destruct s as [|c rest]; [by intros [? [=]]|].
  destruct (allDigits (String c rest)); [done|]. by intros [? [=]].
Qed.

(** A name that ends in a suffix with a character that is not a digit is
    not an array index. *)
Lemma suffixed_not_index (X s : string) :
  allDigits s = false → arrayIndex (X +:+ s) = None.
Proof.
  intros Hs. destruct (arrayIndex (X +:+ s)) as [n|] eqn:Hn; [|done].
  assert (allDigits (X +:+ s) = true) as Hd by (apply arrayIndex_allDigits; eauto).
  rewrite allDigits_append, Hs, andb_false_r in Hd. done.
Qed.

(** ** Plain objects *)

Lemma ownValue_defineOwn_eq ps k v : ownValue k (defineOwn k v ps) = Some v.
Proof.
  induction ps as [|[k' v'] ps IH]; simpl.
  - by rewrite String.eqb_refl.
  - destruct (String.eqb_spec k k') as [->|Hne]; simpl.
    + by rewrite String.eqb_refl.
    + by rewrite (proj2 (String.eqb_neq k k') Hne).
Qed.

Lemma ownValue_defineOwn_ne ps k k' v :
  k ≠ k' → ownValue k' (defineOwn k v ps) = ownValue k' ps.
Proof.
  intros Hne. induction ps as [|[k0 v0] ps IH]; simpl.
  - by rewrite (proj2 (String.eqb_neq k' k)).
  - destruct (String.eqb_spec k k0) as [->|Hne0]; simpl.
    + by rewrite (proj2 (String.eqb_neq k' k0)).
    + by rewrite IH.
Qed.

Lemma defineOwn_same ps k v : ownValue k ps = Some v → defineOwn k v ps = ps.
Proof.
  induction ps as [|[k0 v0] ps IH]; simpl; [done|].
  destruct (String.eqb_spec k k0) as [->|Hne].
  - by intros [= ->].
  - intros H. by rewrite IH.
Qed.

Lemma elem_of_keys_ownValue ps k : k ∈ ps.*1 ↔ is_Some (ownValue k ps).
Proof.
  induction ps as [|[k0 v0] ps IH]; simpl.
  - split; [by intros ?%elem_of_nil|by intros [? [=]]].
  - rewrite elem_of_cons, IH. destruct (String.eqb_spec k k0) as [->|Hne].
    + split; eauto.
    + split; [by intros [?|?]|by right].
Qed.

Lemma lookup_define_eq (o : JSObject) k v : <[k := v]> o !! k = Some v.
Proof. apply ownValue_defineOwn_eq. Qed.

Lemma lookup_define_ne (o : JSObject) k k' v : k ≠ k' → <[k := v]> o !! k' = o !! k'.
Proof. apply ownValue_defineOwn_ne. Qed.

Lemma define_same (o : JSObject) k v : o !! k = Some v → <[k := v]> o = o.
Proof.
  destruct o as [ps]. unfold lookup, object_lookup, insert, object_insert. simpl.
  intros H. f_equal. by apply defineOwn_same.
Qed.

Lemma lookup_empty_object k : (∅ : JSObject) !! k = None.
Proof. done. Qed.

(** A key is nothing but [__proto__] when [String.eqb] says so. *)
Lemma lookup_assign_ne (o : JSObject) k k' v :
  k ≠ k' → assignProperty k v o !! k' = o !! k'.
Proof.
  intros Hne. unfold assignProperty.
  destruct (o !! k); [by apply lookup_define_ne|].
  destruct (String.eqb k "__proto__"); [done|by apply lookup_define_ne].
Qed.

Lemma lookup_assign_eq (o : JSObject) k v :
  k ≠ "__proto__" → assignProperty k v o !! k = Some v.
Proof.
  intros Hne. unfold assignProperty.
  destruct (o !! k); [apply lookup_define_eq|].
  rewrite (proj2 (String.eqb_neq _ _) Hne). apply lookup_define_eq.
Qed.

Lemma assign_settles (o : JSObject) k v : settled (assignProperty k v o) (k, v).
Proof.
  unfold settled, assignProperty. simpl.
  destruct (o !! k) eqn:Hk; [left; apply lookup_define_eq|].
  destruct (String.eqb_spec k "__proto__") as [->|Hne].
  - by right.
  - left. apply lookup_define_eq.
Qed.

Lemma assign_settled (o : JSObject) k v : settled o (k, v) → assignProperty k v o = o.
Proof.
  unfold settled, assignProperty. simpl. intros [H|[-> H]]; rewrite H.
  - by apply define_same.
  - done.
Qed.

(** What a key reads after an assignment depends on what it read before only. *)
Lemma lookup_assign_local (o o' : JSObject) k v k' :
  o !! k' = o' !! k' → assignProperty k v o !! k' = assignProperty k v o' !! k'.
Proof.
  intros H. destruct (decide (k = k')) as [->|Hne].
  - unfold assignProperty. rewrite <- H. destruct (o !! k') eqn:Hk.
    + by rewrite !lookup_define_eq.
    + destruct (String.eqb k' "__proto__"); [by rewrite Hk|by rewrite !lookup_define_eq].
  - by rewrite !lookup_assign_ne.
Qed.

(** After an assignment a key holds the value assigned or what it held. *)
Lemma lookup_assign_Some (o : JSObject) k v k' t :
  assignProperty k v o !! k' = Some t → (k' = k ∧ t = v) ∨ o !! k' = Some t.
Proof.
  destruct (decide (k = k')) as [->|Hne].
  - destruct (assign_settles o k' v) as [H|[_ H]]; simpl in H; rewrite H.
    + intros [= <-]. by left.
    + done.
  - rewrite lookup_assign_ne by done. by right.
Qed.

(** ** The order of [Object.keys] *)

Lemma ownEnumerable_Permutation {V} (ps : list (string * V)) : ownEnumerable ps ≡ₚ ps.
Proof.
  unfold ownEnumerable. rewrite merge_sort_Permutation.
  apply filter_app_complement.
Qed.

Lemma elem_of_objectKeys (o : JSObject) k : k ∈ objectKeys o ↔ is_Some (o !! k).
Proof.
  unfold objectKeys. rewrite ownEnumerable_Permutation.
  apply elem_of_keys_ownValue.
Qed.

Lemma filter_index_none {V} (ps : list (string * V)) :
  Forall (λ p, arrayIndex p.1 = None) ps →
  filter (λ p, is_Some (arrayIndex p.1)) ps = []
  ∧ filter (λ p, ¬ is_Some (arrayIndex p.1)) ps = ps.
Proof.
  induction 1 as [|p ps Hp _ [IH1 IH2]]; [done|].
  rewrite !filter_cons. rewrite Hp in *.
  destruct (decide (is_Some (None : option N))) as [[? [=]]|_].
  destruct (decide (¬ is_Some (None : option N))) as [_|Hn].
  - by rewrite IH1, IH2.
  - exfalso. apply Hn. by intros [? [=]].
Qed.

(** When only the first key can be an array index, the order of creation
    is the order of [Object.keys]. *)
Lemma ownEnumerable_head {V} (p : string * V) (ps : list (string * V)) :
  Forall (λ p, arrayIndex p.1 = None) ps → ownEnumerable (p :: ps) = p :: ps.
Proof.
  intros Hps. destruct (filter_index_none ps Hps) as [H1 H2].
  unfold ownEnumerable. rewrite !filter_cons, H1, H2.
  destruct (decide (is_Some (arrayIndex p.1))) as [Hp|Hp].
  - destruct (decide (¬ is_Some (arrayIndex p.1))); [done|]. reflexivity.
  - destruct (decide (¬ is_Some (arrayIndex p.1))); [|done]. reflexivity.
Qed.

Lemma ownEnumerable_no_index {V} (ps : list (string * V)) :
  Forall (λ p, arrayIndex p.1 = None) ps → ownEnumerable ps = ps.
Proof.
  intros Hps. destruct ps as [|p ps]; [done|].
  apply Forall_cons in Hps as [_ Hps]. by apply ownEnumerable_head.
Qed.

(** ** Tables and assignments *)

(** Membership of a row in a table that is written out. *)
Ltac in_table := rewrite !elem_of_cons; auto 10.

(** A suffixed variant name is not [__proto__]. *)
Ltac not_proto := apply suffixed_not_proto; [discriminate|reflexivity].

Lemma lookup_assignAll_other tbl (m : JSObject) k :
  k ∉ tbl.*1 → assignAll tbl m !! k = m !! k.
Proof.
  unfold assignAll. revert m.
  induction tbl as [|[k' v] tbl IH]; intros m Hk; simpl in *; [done|].
  apply not_elem_of_cons in Hk as [Hne Hk].
  rewrite IH by done. by rewrite lookup_assign_ne.
Qed.

Lemma assignAll_settles tbl (m : JSObject) kv :
  NoDup tbl.*1 → kv ∈ tbl → settled (assignAll tbl m) kv.
Proof.
  unfold assignAll. revert m.
  induction tbl as [|[k' v'] tbl IH]; intros m Hnd Hin; simpl in *.
  - by apply elem_of_nil in Hin.
  - apply NoDup_cons in Hnd as [Hk' Hnd].
    apply elem_of_cons in Hin as [->|Hin]; [|by apply IH].
    fold (assignAll tbl (assignProperty k' v' m)).
    unfold settled. simpl. rewrite lookup_assignAll_other by done.
    apply (assign_settles m k' v').
Qed.

Lemma lookup_assignAll_row tbl (m : JSObject) k v :
  NoDup tbl.*1 → (k, v) ∈ tbl → k ≠ "__proto__" → assignAll tbl m !! k = Some v.
Proof.
  intros Hnd Hin Hk.
  by destruct (assignAll_settles tbl m (k, v) Hnd Hin) as [H|[H _]].
Qed.

Lemma assignAll_fixed tbl (m : JSObject) : Forall (settled m) tbl → assignAll tbl m = m.
Proof.
  unfold assignAll. induction 1 as [|[k v] tbl Hkv _ IH]; [done|].
  simpl. by rewrite assign_settled.
Qed.

Lemma assignAll_idemp tbl (m : JSObject) :
  NoDup tbl.*1 → assignAll tbl (assignAll tbl m) = assignAll tbl m.
Proof.
  intros Hnd. apply assignAll_fixed, Forall_forall.
  intros kv Hkv. by apply assignAll_settles.
Qed.

Lemma lookup_assignAll_local tbl (m m' : JSObject) k :
  m !! k = m' !! k → assignAll tbl m !! k = assignAll tbl m' !! k.
Proof.
  unfold assignAll. revert m m'.
  induction tbl as [|[k' v'] tbl IH]; intros m m' H; simpl; [done|].
  apply IH. by apply lookup_assign_local.
Qed.

Lemma lookup_assignAll_Some tbl (m : JSObject) k t :
  assignAll tbl m !! k = Some t → (k, t) ∈ tbl ∨ m !! k = Some t.
Proof.
  unfold assignAll. revert m.
  induction tbl as [|[k' v'] tbl IH]; intros m H; simpl in *; [by right|].
  destruct (IH _ H) as [Hin|Hm]; [left; by right|].
  destruct (lookup_assign_Some _ _ _ _ _ Hm) as [[-> ->]|?]; [left; by left|by right].
Qed.

Lemma assign_proto_is_Some (m : JSObject) k v :
  is_Some (assignProperty k v m !! "__proto__") ↔ is_Some (m !! "__proto__").
Proof.
  destruct (decide (k = "__proto__")) as [->|Hne].
  - unfold assignProperty. destruct (m !! "__proto__") eqn:Hm.
    + rewrite lookup_define_eq. split; eauto.
    + simpl. by rewrite Hm.
  - by rewrite lookup_assign_ne.
Qed.

(** Assignments never create an own [__proto__]. *)
Lemma lookup_assignAll_proto tbl (m : JSObject) :
  is_Some (assignAll tbl m !! "__proto__") ↔ is_Some (m !! "__proto__").
Proof.
  unfold assignAll. revert m.
  induction tbl as [|[k v] tbl IH]; intros m; simpl; [done|].
  rewrite IH. apply assign_proto_is_Some.
Qed.

(** The names of an object after the rows of a table were assigned. *)
Lemma lookup_assignAll_is_Some tbl (m : JSObject) k :
  NoDup tbl.*1 →
  is_Some (assignAll tbl m !! k)
  ↔ (k ∈ tbl.*1 ∧ k ≠ "__proto__") ∨ is_Some (m !! k).
Proof.
  intros Hnd. destruct (decide (k = "__proto__")) as [->|Hne].
  - rewrite lookup_assignAll_proto. split; [by right|by intros [[_ ?]|?]].
  - destruct (decide (k ∈ tbl.*1)) as [Hin|Hout].
    + split; [by left|]. intros _.
      apply list_elem_of_fmap in Hin as ([k' v] & -> & Hin).
      exists v. by apply lookup_assignAll_row.
    + rewrite lookup_assignAll_other by done. split; [by right|by intros [[? _]|?]].
Qed.

(** ** addFilter against the table *)

(** [addFilter] performs exactly the assignments of the table of its type,
    and throws without assigning anything when the type has no table. *)
Lemma registers_table (X ty : string) (o : option Options) (this : BaseEntity) :
  addFilter X (Some ty) o this =
  match variantTable ty X (fieldNameOf (default (mkOptions None) o) X) with
  | Some tbl => (Normal tt, set_filters (assignAll tbl) this)
  | None => (Throw (NonSupportedFilterTypeError ty), this)
  end.
Proof.
  unfold addFilter, variantTable. cbv zeta.
  change (default filterTypes.NUMBER (Some ty)) with ty.
  destruct (String.eqb ty filterTypes.BOOLEAN); [reflexivity|].
  destruct (String.eqb ty filterTypes.TEXT); [reflexivity|].
  destruct (String.eqb ty filterTypes.NUMBER); [reflexivity|].
  destruct (String.eqb ty filterTypes.BINARY); reflexivity.
Qed.

(** The names of a table are the filter name followed by the suffixes of the type. *)
Lemma table_names (X ty field : string) tbl :
  variantTable ty X field = Some tbl →
  tbl.*1 = String.app X <$> variantSuffixes ty.
Proof.
  unfold variantTable, variantSuffixes.
  destruct (String.eqb ty filterTypes.BOOLEAN);
    [intros [= <-]; simpl; by rewrite append_empty_r|].
  destruct (String.eqb ty filterTypes.TEXT);
    [intros [= <-]; simpl; by rewrite append_empty_r|].
  destruct (String.eqb ty filterTypes.NUMBER);
    [intros [= <-]; simpl; by rewrite append_empty_r|].
  destruct (String.eqb ty filterTypes.BINARY);
    [intros [= <-]; simpl; by rewrite append_empty_r|done].
Qed.

Lemma NoDup_variantSuffixes ty : NoDup (variantSuffixes ty).
Proof.
  unfold variantSuffixes.
  destruct (String.eqb ty filterTypes.BOOLEAN);
    [compute_done|].
  destruct (String.eqb ty filterTypes.TEXT);
    [compute_done|].
  destruct (String.eqb ty filterTypes.NUMBER);
    [compute_done|].
  destruct (String.eqb ty filterTypes.BINARY);
    [compute_done|constructor].
Qed.

Lemma NoDup_table_names (X ty field : string) tbl :
  variantTable ty X field = Some tbl → NoDup tbl.*1.
Proof.
  intros H. rewrite (table_names _ _ _ _ H).
  apply NoDup_variant_names, NoDup_variantSuffixes.
Qed.

Lemma supported_has_table (X ty field : string) :
  ty ∈ supportedTypes → is_Some (variantTable ty X field).
Proof.
  unfold supportedTypes. rewrite !elem_of_cons, elem_of_nil.
  intros [->|[->|[->|[->|[]]]]]; vm_compute; eauto.
Qed.

Lemma unsupported_no_table (X ty field : string) :
  ty ∉ supportedTypes → variantTable ty X field = None.
Proof.
  unfold supportedTypes. rewrite !not_elem_of_cons. intros (H1 & H2 & H3 & H4 & _).
  unfold variantTable.
  apply String.eqb_neq in H1, H2, H3, H4. by rewrite H1, H2, H3, H4.
Qed.

(** A table starts with the bare name; the names after it are neither
    array indices nor [__proto__]. *)
Lemma table_shape (X ty field : string) tbl :
  variantTable ty X field = Some tbl →
  ∃ t rest, tbl = (X, t) :: rest
            ∧ Forall (λ q, arrayIndex q.1 = None ∧ q.1 ≠ "__proto__") rest.
Proof.
  unfold variantTable.
  repeat (destruct (String.eqb ty _);
          [intros [= <-]; eexists _, _; split; [reflexivity|];
           repeat constructor; (by apply suffixed_not_index) || not_proto|]).
  done.
Qed.

Lemma table_names_not_proto (X ty field : string) tbl k :
  variantTable ty X field = Some tbl → X ≠ "__proto__" → k ∈ tbl.*1 → k ≠ "__proto__".
Proof.
  intros Htbl HX Hk. destruct (table_shape _ _ _ _ Htbl) as (t & rest & -> & Hrest).
  simpl in Hk. apply elem_of_cons in Hk as [->|Hk]; [done|].
  apply list_elem_of_fmap in Hk as (q & -> & Hq).
  rewrite Forall_forall in Hrest. by apply Hrest.
Qed.

(** The entity after a successful declaration, key by key. *)
Lemma declared_filters (X ty : string) o this tbl :
  variantTable ty X (fieldNameOf (default (mkOptions None) o) X) = Some tbl →
  outcome (addFilter X (Some ty) o this) = Normal tt
  ∧ filters (after (addFilter X (Some ty) o this)) = assignAll tbl (filters this)
  ∧ defaultFieldSet (after (addFilter X (Some ty) o this)) = defaultFieldSet this
  ∧ fields (after (addFilter X (Some ty) o this)) = fields this.
Proof. intros H. rewrite registers_table, H. done. Qed.

Lemma declared_lookup (X ty : string) o this tbl k v :
  variantTable ty X (fieldNameOf (default (mkOptions None) o) X) = Some tbl →
  (k, v) ∈ tbl →
  k ≠ "__proto__" →
  filters (after (addFilter X (Some ty) o this)) !! k = Some v.
Proof.
  intros Htbl Hin Hk.
  destruct (declared_filters X ty o this tbl Htbl) as (_ & -> & _ & _).
  apply lookup_assignAll_row; [|done|done]. by eapply NoDup_table_names.
Qed.

Lemma declared_lookup_other (X ty : string) o this tbl k :
  variantTable ty X (fieldNameOf (default (mkOptions None) o) X) = Some tbl →
  k ∉ tbl.*1 →
  filters (after (addFilter X (Some ty) o this)) !! k = filters this !! k.
Proof.
  intros Htbl Hin.
  destruct (declared_filters X ty o this tbl Htbl) as (_ & -> & _ & _).
  by apply lookup_assignAll_other.
Qed.

Lemma entity_eq (a b : BaseEntity) :
  defaultFieldSet a = defaultFieldSet b → fields a = fields b →
  filters a = filters b → a = b.
Proof. destruct a, b; simpl; by intros -> -> ->. Qed.

(** The entity after [addFilter], for any type string. *)
Lemma after_addFilter (X ty : string) o this :
  after (addFilter X (Some ty) o this) = set_filters (assignAll (rowsOf X ty o)) this.
Proof.
  rewrite registers_table. unfold rowsOf.
  destruct (variantTable ty X _) as [tbl|]; [done|].
  by apply entity_eq.
Qed.

Lemma NoDup_rowsOf (X ty : string) o : NoDup (rowsOf X ty o).*1.
Proof.
  unfold rowsOf.
  destruct (variantTable ty X _) as [tbl|] eqn:Htbl; simpl.
  - by eapply NoDup_table_names.
  - constructor.
Qed.

Lemma addFilter_typeOf (X : string) (ty : option string) o :
  addFilter X ty o = addFilter X (Some (typeOf ty)) o.
Proof. by destruct ty. Qed.

Lemma rowsOf_supported (X ty : string) o :
  ty ∈ supportedTypes →
  variantTable ty X (fieldNameOf (default (mkOptions None) o) X) = Some (rowsOf X ty o).
Proof.
  intros Hty. unfold rowsOf.
  by destruct (supported_has_table X ty
                 (fieldNameOf (default (mkOptions None) o) X) Hty) as [tbl ->].
Qed.

Lemma elem_of_getFilters (this : BaseEntity) k :
  k ∈ getFilters this ↔ is_Some (filters this !! k).
Proof. apply elem_of_objectKeys. Qed.

(** *** A declaration on a fresh entity *)

Lemma defineOwn_fresh ps k v : ownValue k ps = None → defineOwn k v ps = ps ++ [(k, v)].
Proof.
  induction ps as [|[k0 v0] ps IH]; simpl; [done|].
  destruct (String.eqb k k0); [done|]. intros H. by rewrite IH.
Qed.

Lemma assignAll_fresh tbl (m : JSObject) :
  NoDup tbl.*1 →
  (∀ k, k ∈ tbl.*1 → k ≠ "__proto__" ∧ m !! k = None) →
  properties (assignAll tbl m) = properties m ++ tbl.
Proof.
  unfold assignAll. revert m.
  induction tbl as [|[k v] tbl IH]; intros m Hnd Hk; simpl.
  - by rewrite app_nil_r.
  - apply NoDup_cons in Hnd as [Hk' Hnd].
    destruct (Hk k) as [Hne Hm]; [by left|].
    assert (properties (assignProperty k v m) = properties m ++ [(k, v)]) as Hp.
    { unfold assignProperty. rewrite Hm, (proj2 (String.eqb_neq _ _) Hne).
      unfold insert, object_insert. simpl. by apply defineOwn_fresh. }
    rewrite IH; [rewrite Hp; by rewrite <- app_assoc|done|].
    intros k0 Hk0. destruct (Hk k0) as [? Hm0]; [by right|]. split; [done|].
    rewrite lookup_assign_ne; [done|]. intros ->. by apply Hk'.
Qed.

(** On a fresh entity [getFilters] lists the names of the table, in order. *)
Lemma getFilters_fresh (X ty : string) o tbl :
  variantTable ty X (fieldNameOf (default (mkOptions None) o) X) = Some tbl →
  X ≠ "__proto__" →
  getFilters (after (addFilter X (Some ty) o constructor)) = tbl.*1.
Proof.
  intros Htbl HX.
  destruct (declared_filters X ty o constructor tbl Htbl) as (_ & Hf & _ & _).
  unfold getFilters, objectKeys. rewrite Hf.
  rewrite assignAll_fresh.
  - simpl. destruct (table_shape _ _ _ _ Htbl) as (t & rest & -> & Hrest).
    rewrite ownEnumerable_head; [done|].
    eapply Forall_impl; [exact Hrest|]. by intros q [? _].
  - by eapply NoDup_table_names.
  - intros k Hk. split; [by eapply table_names_not_proto|done].
Qed.

Lemma registersExactly_table (X ty : string) o this tbl :
  variantTable ty X (fieldNameOf (default (mkOptions None) o) X) = Some tbl →
  X ≠ "__proto__" →
  registersExactly X ty o this tbl.*1.
Proof.
  intros Htbl HX. pose proof (NoDup_table_names _ _ _ _ Htbl) as Hnd.
  destruct (declared_filters X ty o this tbl Htbl) as (Hout & Hf & _ & _).
  unfold registersExactly. cbv zeta.
  split_and!; [done|done| | | |by apply getFilters_fresh].
  - intros k. rewrite !elem_of_getFilters, Hf, lookup_assignAll_is_Some by done.
    split; intros [H|H]; auto.
    + left. by destruct H.
    + left. split; [done|]. by eapply table_names_not_proto.
  - intros k Hk. apply list_elem_of_fmap in Hk as ([k' v] & -> & Hin).
    assert (filters (after (addFilter X (Some ty) o this)) !! k' = Some v) as Hv.
    { eapply declared_lookup; [done..|].
      eapply table_names_not_proto; [done..|].
      apply list_elem_of_fmap. by exists (k', v). }
    exists v. split; [done|]. unfold getProperty. simpl. by rewrite Hv.
  - intros k Hk. rewrite Hf. by apply lookup_assignAll_other.
Qed.

(** ** Unsupported types *)

(** C5: declaring a filter whose type is none of BOOLEAN, TEXT, NUMBER and
    BINARY throws NonSupportedFilterTypeError, and the entity (its filter map
    included) is exactly what it was before the call. *)
Theorem addFilter_unsupported_type_atomic
    (X ty : string) (o : option Options) (this : BaseEntity) :
  ty ∉ supportedTypes →
  addFilter X (Some ty) o this = (Throw (NonSupportedFilterTypeError ty), this).
Proof.
  intros Hty. rewrite registers_table.
  by rewrite (unsupported_no_table _ _ _ Hty).
Qed.

(** C5 at work: "DATE" on an entity that already declared [status]. *)
Lemma addFilter_unsupported_type_atomic_DATE :
  ("DATE" ∉ supportedTypes)
  ∧ addFilter "status" (Some "DATE") None
      (after (addFilter "status" (Some filterTypes.TEXT) None constructor))
    = (Throw (NonSupportedFilterTypeError "DATE"),
       after (addFilter "status" (Some filterTypes.TEXT) None constructor)).
Proof.
  split; [compute_done|].
  apply (addFilter_unsupported_type_atomic "status" "DATE" None). compute_done.
Defined.

(** ** Variant sets *)

(** C6, as the specification states it, fails for the filter name
    [__proto__]: the assignment of the bare name is swallowed, and only two
    of the three BOOLEAN variants are registered. *)
Lemma proto_base_variant_is_not_registered :
  getFilters (after (addFilter "__proto__" (Some filterTypes.BOOLEAN) None constructor))
  = ["__proto___eql"; "__proto___neql"]
  ∧ filters (after (addFilter "__proto__" (Some filterTypes.BOOLEAN) None constructor))
      !! "__proto__" = None.
Proof. split; vm_compute; reflexivity. Qed.

(** C6 (amended): for every filter name X other than [__proto__], the
    variant names a declaration registers are fixed by its type: BOOLEAN and
    BINARY register X, X_eql, X_neql (each BINARY template compares the
    column with DECODE(${X}, 'hex')); TEXT registers the 5 names X, X_eql,
    X_neql, X_in, X_like; NUMBER registers the 8 names X, X_eql, X_neql,
    X_gt, X_gte, X_lt, X_lte, X_in.  The names depend on nothing but the
    filter name and the type. *)
Theorem variant_sets_by_type (X : string) (o : option Options) (this : BaseEntity) :
  X ≠ "__proto__" →
  registersExactly X filterTypes.BOOLEAN o this
    [X; X +:+ "_eql"; X +:+ "_neql"]
  ∧ registersExactly X filterTypes.BINARY o this
    [X; X +:+ "_eql"; X +:+ "_neql"]
  ∧ registersExactly X filterTypes.TEXT o this
    [X; X +:+ "_eql"; X +:+ "_neql"; X +:+ "_in"; X +:+ "_like"]
  ∧ registersExactly X filterTypes.NUMBER o this
    [X; X +:+ "_eql"; X +:+ "_neql"; X +:+ "_gt"; X +:+ "_gte"; X +:+ "_lt";
     X +:+ "_lte"; X +:+ "_in"]
  ∧ (let field := fieldNameOf (default (mkOptions None) o) X in
     let this' := after (addFilter X (Some filterTypes.BINARY) o this) in
     filters this' !! X
       = Some (dquote +:+ field +:+ dquote +:+ " = DECODE(${" +:+ X +:+ "}, 'hex')")
     ∧ filters this' !! (X +:+ "_eql")
       = Some (dquote +:+ field +:+ dquote +:+ " = DECODE(${" +:+ X +:+ "}, 'hex')")
     ∧ filters this' !! (X +:+ "_neql")
       = Some (dquote +:+ field +:+ dquote +:+ " <> DECODE(${" +:+ X +:+ "}, 'hex')"))
  ∧ length (getFilters (after (addFilter X (Some filterTypes.BOOLEAN) o constructor))) = 3
  ∧ length (getFilters (after (addFilter X (Some filterTypes.BINARY) o constructor))) = 3
  ∧ length (getFilters (after (addFilter X (Some filterTypes.TEXT) o constructor))) = 5
  ∧ length (getFilters (after (addFilter X (Some filterTypes.NUMBER) o constructor))) = 8.
Proof.
  intros HX.
  pose proof (λ this0, registersExactly_table X filterTypes.BOOLEAN o this0 _ eq_refl HX) as HB.
  pose proof (λ this0, registersExactly_table X filterTypes.BINARY o this0 _ eq_refl HX) as HY.
  pose proof (λ this0, registersExactly_table X filterTypes.TEXT o this0 _ eq_refl HX) as HT.
  pose proof (λ this0, registersExactly_table X filterTypes.NUMBER o this0 _ eq_refl HX) as HN.
  split_and!.
  - exact (HB this).
  - exact (HY this).
  - exact (HT this).
  - exact (HN this).
  - cbv zeta.
    split_and!;
      (eapply (declared_lookup X filterTypes.BINARY o this _ _ _ eq_refl);
       [in_table|done || not_proto]).
  - destruct (HB this) as (_ & _ & _ & _ & _ & ->). done.
  - destruct (HY this) as (_ & _ & _ & _ & _ & ->). done.
  - destruct (HT this) as (_ & _ & _ & _ & _ & ->). done.
  - destruct (HN this) as (_ & _ & _ & _ & _ & ->). done.
Qed.

(** C6 (amended) at work: [status] on a fresh entity. *)
Lemma variant_sets_by_type_status :
  "status" ≠ "__proto__"
  ∧ registersExactly "status" filterTypes.TEXT None constructor
      ["status"; "status_eql"; "status_neql"; "status_in"; "status_like"].
Proof.
  split; [done|].
  apply (variant_sets_by_type "status" None constructor). done.
Defined.

(** ** The base variant and equality *)

(** C9, as stated for every filter name, fails for [__proto__]:
    the bare name is not registered, and reading it gives
    [Object.prototype], not the template of [__proto___eql]. *)
Lemma proto_base_variant_is_not_eql :
  let this' := after (addFilter "__proto__" (Some filterTypes.TEXT) None constructor) in
  filters this' !! "__proto__" = None
  ∧ getProperty (filters this') "__proto__" = JObjectPrototype
  ∧ getProperty (filters this') "__proto___eql"
    = JString (cmpTemplate "__proto__" "=" "__proto__").
Proof. cbv zeta. split_and!; vm_compute; reflexivity. Qed.

(** C9 (amended): for every supported type and every filter name X other
    than [__proto__], after declaring X the template registered under the
    bare name X is the very string registered under X_eql, and reading
    either gives that string. *)
Theorem base_variant_is_eql
    (X ty : string) (o : option Options) (this : BaseEntity) :
  ty ∈ supportedTypes →
  X ≠ "__proto__" →
  let this' := after (addFilter X (Some ty) o this) in
  is_Some (filters this' !! X)
  ∧ filters this' !! X = filters this' !! (X +:+ "_eql")
  ∧ getProperty (filters this') X = getProperty (filters this') (X +:+ "_eql").
Proof.
  intros Hty HX. cbv zeta.
  set (field := fieldNameOf (default (mkOptions None) o) X).
  assert (∃ tbl t, variantTable ty X field = Some tbl
                   ∧ (X, t) ∈ tbl ∧ (X +:+ "_eql", t) ∈ tbl) as (tbl & t & Htbl & H1 & H2).
  { unfold supportedTypes in Hty. rewrite !elem_of_cons, elem_of_nil in Hty.
    destruct Hty as [->|[->|[->|[->|[]]]]];
      (eexists _, _; split; [reflexivity|]; in_table). }
  assert (filters (after (addFilter X (Some ty) o this)) !! X = Some t) as HX1
    by by eapply declared_lookup.
  assert (filters (after (addFilter X (Some ty) o this)) !! (X +:+ "_eql") = Some t)
    as HX2 by (eapply declared_lookup; [done..|not_proto]).
  unfold getProperty. rewrite HX1, HX2. eauto.
Qed.

(** C9 (amended) at work: [status] declared as TEXT on a fresh entity. *)
Lemma base_variant_is_eql_TEXT :
  filterTypes.TEXT ∈ supportedTypes
  ∧ "status" ≠ "__proto__"
  ∧ filters (after (addFilter "status" (Some filterTypes.TEXT) None constructor))
      !! "status"
    = filters (after (addFilter "status" (Some filterTypes.TEXT) None constructor))
      !! "status_eql".
Proof.
  split; [compute_done|]. split; [done|].
  apply (base_variant_is_eql "status" filterTypes.TEXT None constructor);
    [compute_done|done].
Defined.

(** ** The default type *)

(** C10, as stated for every filter name, fails for [__proto__]:
    with the type omitted 7 names are registered, not 8. *)
Lemma proto_default_type_registers_seven :
  getFilters (after (addFilter "__proto__" None None constructor))
  = ["__proto___eql"; "__proto___neql"; "__proto___gt"; "__proto___gte";
     "__proto___lt"; "__proto___lte"; "__proto___in"].
Proof. vm_compute. reflexivity. Qed.

(** C10 (amended): with the type argument omitted, [addFilter] behaves as
    for NUMBER, and for every filter name X other than [__proto__] it
    registers exactly the 8 NUMBER variants. *)
Theorem addFilter_default_type_NUMBER
    (X : string) (o : option Options) (this : BaseEntity) :
  X ≠ "__proto__" →
  addFilter X None o this = addFilter X (Some filterTypes.NUMBER) o this
  ∧ outcome (addFilter X None o this) = Normal tt
  ∧ (∀ k, k ∈ getFilters (after (addFilter X None o this))
          ↔ k ∈ [X; X +:+ "_eql"; X +:+ "_neql"; X +:+ "_gt"; X +:+ "_gte";
                 X +:+ "_lt"; X +:+ "_lte"; X +:+ "_in"]
            ∨ k ∈ getFilters this)
  ∧ getFilters (after (addFilter X None o constructor))
    = [X; X +:+ "_eql"; X +:+ "_neql"; X +:+ "_gt"; X +:+ "_gte";
       X +:+ "_lt"; X +:+ "_lte"; X +:+ "_in"].
Proof.
  intros HX.
  assert (Heq : ∀ this0, addFilter X None o this0
                         = addFilter X (Some filterTypes.NUMBER) o this0) by done.
  destruct (registersExactly_table X filterTypes.NUMBER o this _ eq_refl HX)
    as (Hout & _ & Hnames & _ & _ & Hfresh).
  rewrite !Heq. done.
Qed.

(** C10 (amended) at work: [amount] declared without a type. *)
Lemma addFilter_default_type_NUMBER_amount :
  "amount" ≠ "__proto__"
  ∧ getFilters (after (addFilter "amount" None None constructor))
    = ["amount"; "amount_eql"; "amount_neql"; "amount_gt"; "amount_gte";
       "amount_lt"; "amount_lte"; "amount_in"].
Proof.
  split; [done|].
  apply (addFilter_default_type_NUMBER "amount" None constructor). done.
Defined.

(** ** Declaring a name twice *)

(** C4, as the specification states it, fails: after NUMBER then BOOLEAN for
    the same name, the NUMBER-only variants are still registered. *)
Lemma redeclaration_leaves_old_variants :
  let this2 :=
    after (addFilter "amount" (Some filterTypes.BOOLEAN) None
             (after (addFilter "amount" (Some filterTypes.NUMBER) None constructor))) in
  filters this2 !! "amount_gt" = Some (cmpTemplate "amount" ">" "amount")
  ∧ "amount_gt" ∈ getFilters this2
  ∧ getFilters this2
    = ["amount"; "amount_eql"; "amount_neql"; "amount_gt"; "amount_gte";
       "amount_lt"; "amount_lte"; "amount_in"]
  ∧ getFilters this2 ≠ ["amount"; "amount_eql"; "amount_neql"].
Proof.
  cbv zeta. split_and!; [vm_compute; reflexivity|compute_done|
                         vm_compute; reflexivity|compute_done].
Qed.

(** C4 (amended): declaring a name again with a supported type overwrites
    the templates of the variant names of the second type, and those only:
    each of them holds the second declaration's template (last write wins),
    while every other key, the variants only the first type has included,
    keeps what the first declaration left; the registered names are those
    of both types together.  (The bare name [__proto__] is the one name no
    declaration registers.) *)
Theorem redeclaration_overwrites_its_own_variants
    (X t1 t2 : string) (o1 o2 : option Options) (this : BaseEntity) :
  t1 ∈ supportedTypes →
  t2 ∈ supportedTypes →
  let this1 := after (addFilter X (Some t1) o1 this) in
  let this2 := after (addFilter X (Some t2) o2 this1) in
  outcome (addFilter X (Some t2) o2 this1) = Normal tt
  ∧ (∀ k v, (k, v) ∈ rowsOf X t2 o2 → k ≠ "__proto__" → filters this2 !! k = Some v)
  ∧ (∀ k, k ∉ (rowsOf X t2 o2).*1 → filters this2 !! k = filters this1 !! k)
  ∧ (∀ k, k ∈ getFilters this2
          ↔ (k ∈ (rowsOf X t2 o2).*1 ∧ k ≠ "__proto__")
            ∨ (k ∈ (rowsOf X t1 o1).*1 ∧ k ≠ "__proto__")
            ∨ k ∈ getFilters this).
Proof.
  intros H1 H2. cbv zeta.
  pose proof (rowsOf_supported X t1 o1 H1) as Ht1.
  pose proof (rowsOf_supported X t2 o2 H2) as Ht2.
  split_and!.
  - by destruct (declared_filters X t2 o2
                   (after (addFilter X (Some t1) o1 this)) _ Ht2) as (-> & _).
  - intros k v Hin Hk. by eapply declared_lookup.
  - intros k Hk. by eapply declared_lookup_other.
  - intros k. rewrite !elem_of_getFilters, !after_addFilter. simpl.
    rewrite !lookup_assignAll_is_Some by apply NoDup_rowsOf. done.
Qed.

(** C4 (amended) at work: [amount] declared NUMBER, then BOOLEAN; the
    NUMBER-only variant [amount_gt] keeps its template. *)
Lemma redeclaration_overwrites_its_own_variants_amount :
  let this1 := after (addFilter "amount" (Some filterTypes.NUMBER) None constructor) in
  let this2 := after (addFilter "amount" (Some filterTypes.BOOLEAN) None this1) in
  filterTypes.NUMBER ∈ supportedTypes
  ∧ filterTypes.BOOLEAN ∈ supportedTypes
  ∧ filters this2 !! "amount_gt" = filters this1 !! "amount_gt"
  ∧ filters this2 !! "amount_neql" = Some (cmpTemplate "amount" "<>" "amount").
Proof.
  cbv zeta. split; [compute_done|]. split; [compute_done|].
  destruct (redeclaration_overwrites_its_own_variants "amount"
              filterTypes.NUMBER filterTypes.BOOLEAN None None constructor)
    as (_ & Hrow & Hother & _); [compute_done..|].
  split; [apply Hother|apply Hrow]; compute_done.
Defined.

(** ** Placeholders of the equality variants *)

Lemma cmpTemplate_placeholder_differs (field op X suffix : string) :
  suffix ≠ "" → cmpTemplate field op X ≠ cmpTemplate field op (X +:+ suffix).
Proof.
  intros Hs Heq. unfold cmpTemplate in Heq.
  do 6 apply append_inv_l in Heq.
  rewrite append_assoc in Heq. apply append_inv_l in Heq.
  destruct suffix as [|c [|c' suffix]]; [done| |];
    vm_compute in Heq; discriminate.
Qed.

(** C7, evaluated on the code: with a [realName] override the X_eql and
    X_neql templates do compare the real column, but their placeholder is
    named after the bare filter name, not after the variant; the sibling
    variants X_in and X_like carry the variant's name in theirs. *)
Theorem eql_placeholder_is_the_base_name
    (X realColumn : string) (this : BaseEntity) :
  let o := Some (mkOptions (Some realColumn)) in
  let field := fieldNameOf (mkOptions (Some realColumn)) X in
  let this' := after (addFilter X (Some filterTypes.TEXT) o this) in
  filters this' !! (X +:+ "_eql") = Some (cmpTemplate field "=" X)
  ∧ filters this' !! (X +:+ "_neql") = Some (cmpTemplate field "<>" X)
  ∧ cmpTemplate field "=" X ≠ cmpTemplate field "=" (X +:+ "_eql")
  ∧ cmpTemplate field "<>" X ≠ cmpTemplate field "<>" (X +:+ "_neql")
  ∧ filters this' !! (X +:+ "_like")
    = Some (dquote +:+ X +:+ dquote +:+ " LIKE ${" +:+ (X +:+ "_like") +:+ "}")
  ∧ filters this' !! (X +:+ "_in")
    = Some (dquote +:+ X +:+ dquote +:+ " IN (${" +:+ (X +:+ "_in") +:+ ":csv})").
Proof.
  cbv zeta.
  set (o := Some (mkOptions (Some realColumn))).
  set (field := fieldNameOf (mkOptions (Some realColumn)) X).
  split_and!.
  - apply (declared_lookup X filterTypes.TEXT o this _ _ _ eq_refl);
      [in_table|not_proto].
  - apply (declared_lookup X filterTypes.TEXT o this _ _ _ eq_refl);
      [in_table|not_proto].
  - by apply cmpTemplate_placeholder_differs.
  - by apply cmpTemplate_placeholder_differs.
  - rewrite (declared_lookup X filterTypes.TEXT o this _ _ (likeTemplate X) eq_refl);
      [|in_table|not_proto].
    unfold likeTemplate. by rewrite append_assoc.
  - rewrite (declared_lookup X filterTypes.TEXT o this _ _ (inTemplate X) eq_refl);
      [|in_table|not_proto].
    unfold inTemplate. by rewrite append_assoc.
Qed.

(** ** join *)

Lemma join_cons2 sep x y l :
  join sep (x :: y :: l) = joinElement x +:+ sep +:+ join sep (y :: l).
Proof. reflexivity. Qed.

(** [join] sees its elements only through their rendering. *)
Lemma join_ext sep l1 l2 :
  Forall2 (λ a b, joinElement a = joinElement b) l1 l2 →
  join sep l1 = join sep l2.
Proof.
  induction 1 as [|a b l1 l2 Hab Hl IH]; [done|].
  destruct Hl as [|a' b' l1 l2 Hab' Hl].
  - exact Hab.
  - rewrite !join_cons2, Hab. by rewrite IH.
Qed.

(** The joined string is its elements plus one separator between neighbours. *)
Lemma join_length sep l :
  String.length (join sep l) =
  sum_list (String.length ∘ joinElement <$> l)
  + String.length sep * (length l - 1).
Proof.
  induction l as [|x [|y l] IH].
  - simpl. lia.
  - simpl. lia.
  - rewrite join_cons2, !append_length, IH.
    change (length (x :: y :: l)) with (S (length (y :: l))).
    change (length (y :: l)) with (S (length l)).
    rewrite !fmap_cons. simpl. lia.
Qed.

Lemma length_zero_empty (s : string) : String.length s = 0 → s = "".
Proof. by destruct s. Qed.

(** With a separator that is not empty, a join is empty only for no element
    or for one element that renders as the empty string. *)
Lemma join_empty_iff sep l :
  0 < String.length sep →
  join sep l = "" ↔ l = [] ∨ ∃ x, l = [x] ∧ joinElement x = "".
Proof.
  intros Hsep. split.
  - destruct l as [|x [|y l]]; [by left|right; by exists x|].
    rewrite join_cons2. intros H. apply (f_equal String.length) in H.
    rewrite !append_length in H. simpl in H. lia.
  - intros [->|(x & -> & Hx)]; [done|exact Hx].
Qed.

Lemma join_app sep l1 l2 :
  l1 ≠ [] → l2 ≠ [] →
  join sep (l1 ++ l2) = join sep l1 +:+ sep +:+ join sep l2.
Proof.
  intros H1 H2. induction l1 as [|x [|y l1] IH]; [done| |].
  - destruct l2 as [|z l2]; [done|]. reflexivity.
  - change ((x :: y :: l1) ++ l2) with (x :: y :: (l1 ++ l2)).
    rewrite !join_cons2. change (y :: l1 ++ l2) with ((y :: l1) ++ l2).
    rewrite IH by done. by rewrite !append_assoc.
Qed.

(** A join that starts with a quoted template starts with the quote. *)
Lemma join_head_quoted sep rest (x : option string) l :
  joinElement x = dquote +:+ rest →
  ∃ rest', join sep (x :: l) = dquote +:+ rest'.
Proof.
  intros Hx. destruct l as [|y l].
  - by exists rest.
  - rewrite join_cons2, Hx. eexists. by rewrite append_assoc.
Qed.

(** ** Reading the filter map *)

(** A registered key reads as its template. *)
Lemma filterAt_registered (this : BaseEntity) key t :
  filters this !! key = Some t → filterAt this key = Some t.
Proof. intros H. unfold filterAt, getProperty. by rewrite H. Qed.

(** What an unregistered key reads as is fixed by [Object.prototype]. *)
Lemma filterAt_unregistered (this : BaseEntity) key :
  filters this !! key = None → filterAt this key = joined (objectPrototype key).
Proof. intros H. unfold filterAt, getProperty. by rewrite H. Qed.

(** The reading depends on the own property only. *)
Lemma filterAt_agree (e1 e2 : BaseEntity) key :
  filters e1 !! key = filters e2 !! key → filterAt e1 key = filterAt e2 key.
Proof. intros H. unfold filterAt, getProperty. by rewrite H. Qed.

(** No member of [Object.prototype] prints as the empty string. *)
Lemma inherited_text_not_empty key : joined (objectPrototype key) ≠ Some "".
Proof.
  unfold objectPrototype.
  destruct (String.eqb key "__proto__"); [done|].
  destruct (String.eqb key "constructor"); [done|].
  destruct (bool_decide (key ∈ objectPrototypeFunctions)); done.
Qed.

(** ** parseFilters *)

Section CompilerFacts.
Context {Value : Type}.
Variable parseQueryComponent : string → Criteria Value → string.

(** [parseFilters] never throws and never touches the entity. *)
Lemma parseFilters_returns (this : BaseEntity) (c : Criteria Value) :
  parseFilters parseQueryComponent c this =
  (Normal (whereOf parseQueryComponent (filterString this c) c), this).
Proof.
  unfold parseFilters, whereOf.
  by destruct (filterString this c) as [[|a s]|].
Qed.

(** [parseFilters] returns the empty string exactly when the clause is empty
    or was never built. *)
Lemma parseFilters_empty_iff this c :
  parseFilters parseQueryComponent c this = (Normal "", this)
  ↔ filterString this c = None ∨ filterString this c = Some "".
Proof.
  rewrite parseFilters_returns. unfold whereOf.
  destruct (filterString this c) as [[|a s]|]; split; auto.
  - intros [=].
  - intros [[=]|[=]].
Qed.

(** The clause of a group depends on how its keys render only. *)
Lemma parseFilterObject_ext (e1 e2 : BaseEntity) (g : Group Value) :
  (∀ k, k ∈ keys g → joinElement (filterAt e1 k) = joinElement (filterAt e2 k)) →
  parseFilterObject e1 g = parseFilterObject e2 g.
Proof.
  intros Hg. unfold parseFilterObject. apply join_ext.
  apply Forall2_fmap, Forall_Forall2_diag, Forall_forall. intros k Hk. by apply Hg.
Qed.

Lemma filterString_ext (e1 e2 : BaseEntity) (c : Criteria Value) :
  (∀ k, k ∈ criteriaKeys c → joinElement (filterAt e1 k) = joinElement (filterAt e2 k)) →
  filterString e1 c = filterString e2 c.
Proof.
  intros Hagree. destruct c as [groups|g|]; simpl in *;
    [|f_equal; by apply parseFilterObject_ext|done].
  f_equal. f_equal. apply list_fmap_ext. intros i g Hg. f_equal.
  apply parseFilterObject_ext. intros k Hk. apply Hagree.
  apply list_elem_of_In, in_concat. exists (keys g).
  split; apply list_elem_of_In; [|done].
  apply list_elem_of_fmap. exists g. split; [done|].
  by eapply list_elem_of_lookup_2.
Qed.

(** The clause reads the filter map at the keys of the criteria only. *)
Lemma filterString_agree (e1 e2 : BaseEntity) (c : Criteria Value) :
  (∀ k, k ∈ criteriaKeys c → filters e1 !! k = filters e2 !! k) →
  filterString e1 c = filterString e2 c.
Proof.
  intros H. apply filterString_ext. intros k Hk. f_equal.
  by apply filterAt_agree, H.
Qed.

(** Giving an unregistered key, as an own template, the text it reads as
    changes no clause. *)
Lemma filterString_own_text (this : BaseEntity) key (c : Criteria Value) :
  filters this !! key = None →
  filterString this c
  = filterString
      (set_filters (λ m, <[key := joinElement (joined (objectPrototype key))]> m) this)
      c.
Proof.
  intros Hkey. apply filterString_ext. intros k _.
  destruct (decide (key = k)) as [<-|Hne].
  - rewrite (filterAt_unregistered this key Hkey).
    erewrite (filterAt_registered _ key); [done|]. simpl. apply lookup_define_eq.
  - f_equal. apply filterAt_agree. simpl. symmetry. by apply lookup_define_ne.
Qed.

(** The templates of a group whose keys are all registered. *)
Lemma group_templates (this : BaseEntity) (g : Group Value) :
  Forall (λ key, is_Some (filters this !! key)) (keys g) →
  ∃ templates : list string,
    Forall2 (λ key t, filters this !! key = Some t) (keys g) templates
    ∧ parseFilterObject this g = join " AND " (Some <$> templates).
Proof.
  intros Hall.
  assert (∃ templates : list string,
             Forall2 (λ key t, filters this !! key = Some t) (keys g) templates)
    as [templates Ht].
  { induction Hall as [|key ks [t Hkey] _ [ts IH]]; [by exists []|].
    exists (t :: ts). by constructor. }
  exists templates. split; [done|].
  unfold parseFilterObject. apply join_ext.
  apply Forall2_fmap. eapply Forall2_impl; [exact Ht|].
  intros key t Hkey. simpl. by rewrite (filterAt_registered _ _ _ Hkey).
Qed.
End CompilerFacts.

Lemma keys_groupMap {V W} (f : V → W) (g : Group V) : keys (groupMap f g) = keys g.
Proof.
  unfold keys, groupMap. rewrite <- list_fmap_compose.
  by apply list_fmap_ext.
Qed.

(** The clause is computed from the keys alone. *)
Lemma filterString_criteriaMap {V W} (f : V → W) this (c : Criteria V) :
  filterString this (criteriaMap f c) = filterString this c.
Proof.
  destruct c as [groups|g|]; simpl; [| |done].
  - f_equal. f_equal. rewrite <- list_fmap_compose.
    apply list_fmap_ext. intros _ g _. simpl. f_equal.
    unfold parseFilterObject. by rewrite keys_groupMap.
  - unfold parseFilterObject. by rewrite keys_groupMap.
Qed.

Lemma lookup_value_elem (o : JSObject) k t : o !! k = Some t → t ∈ (properties o).*2.
Proof.
  destruct o as [ps]. unfold lookup, object_lookup. simpl.
  induction ps as [|[k0 v0] ps IH]; simpl; [done|].
  destruct (String.eqb k k0).
  - intros [= ->]. by left.
  - intros H. right. by apply IH.
Qed.

(** ** Unknown keys *)

(** C1, as the specification states it, fails: with [fee] unregistered,
    [parseFilters] returns normally, and what it returns carries the
    fragment with the dangling separator. *)
Lemma unknown_key_compiles_to_fragment :
  "fee" ∈ criteriaKeys amountAndFee
  ∧ filters amountEntity !! "fee" = None
  ∧ filterString amountEntity amountAndFee
    = Some (cmpTemplate "amount" "=" "amount" +:+ " AND ")
  ∧ parseFilters echoAdapter amountAndFee amountEntity
    = (Normal ("WHERE " +:+ cmpTemplate "amount" "=" "amount" +:+ " AND "),
       amountEntity).
Proof. split_and!; [compute_done|vm_compute; reflexivity..]. Qed.

(** C1 (amended): criteria with a key that is not registered do not make
    [parseFilters] fail.  It returns normally and leaves the entity as it
    was; a clause is always built, and the place of the unknown key in it
    holds what [join] prints for [this.filters[key]]: the clause is the one
    the key would give were that text its registered template.  For a key
    that names no member of [Object.prototype] the text is empty, as if the
    key were registered with the empty template; and a group of two keys
    or more always gives a clause that is not empty, which goes to the
    adapter. *)
Theorem unknown_key_is_not_rejected {Value : Type}
    (parseQueryComponent : string → Criteria Value → string)
    (this : BaseEntity) (c : Criteria Value) (key : string) :
  key ∈ criteriaKeys c →
  filters this !! key = None →
  (∃ clause, filterString this c = Some clause
             ∧ parseFilters parseQueryComponent c this
               = (Normal (whereOf parseQueryComponent (Some clause) c), this))
  ∧ filterString this c
    = filterString
        (set_filters (λ m, <[key := joinElement (joined (objectPrototype key))]> m) this)
        c
  ∧ (objectPrototype key = JUndefined →
     filterString this c = filterString (after (setFilter key "" this)) c)
  ∧ (∀ g, c = CGroup g → 2 ≤ length g →
       ∃ clause, clause ≠ ""
         ∧ parseFilters parseQueryComponent c this
           = (Normal ("WHERE " +:+ parseQueryComponent clause c), this)).
Proof.
  intros Hin Hkey. split_and!.
  - destruct (filterString this c) as [clause|] eqn:Hc.
    + exists clause. split; [done|]. by rewrite parseFilters_returns, Hc.
    + destruct c; simpl in *; [done|done|by apply elem_of_nil in Hin].
  - by apply filterString_own_text.
  - intros Hundef.
    assert (key ≠ "__proto__") as Hne by (by intros ->).
    assert (assignProperty key "" (filters this) = <[key := ""]> (filters this))
      as Hassign.
    { unfold assignProperty. by rewrite Hkey, (proj2 (String.eqb_neq _ _) Hne). }
    rewrite (filterString_own_text this key c Hkey), Hundef.
    unfold setFilter, after, set_filters. cbn [snd]. by rewrite Hassign.
  - intros g -> Hg. exists (parseFilterObject this g). split.
    + intros H. unfold parseFilterObject in H.
      apply join_empty_iff in H; [|simpl; lia].
      destruct g as [|p1 [|p2 g]]; simpl in Hg; [lia|lia|].
      by destruct H as [?|(? & ? & _)].
    + rewrite parseFilters_returns. simpl.
      destruct (parseFilterObject this g) eqn:Hp; [|done].
      exfalso. unfold parseFilterObject in Hp.
      apply join_empty_iff in Hp; [|simpl; lia].
      destruct g as [|p1 [|p2 g]]; simpl in Hg; [lia|lia|].
      by destruct Hp as [?|(? & ? & _)].
Qed.

(** C1 (amended) at work: [{amount: 5, fee: 1}] against [amountEntity]. *)
Lemma unknown_key_is_not_rejected_fee :
  "fee" ∈ criteriaKeys amountAndFee
  ∧ filters amountEntity !! "fee" = None
  ∧ filterString amountEntity amountAndFee
    = filterString (after (setFilter "fee" "" amountEntity)) amountAndFee.
Proof.
  split; [compute_done|]. split; [vm_compute; reflexivity|].
  destruct (unknown_key_is_not_rejected echoAdapter amountEntity amountAndFee "fee")
    as (_ & _ & H & _); [compute_done|vm_compute; reflexivity|].
  apply H. vm_compute. reflexivity.
Defined.

(** ** Values stay out of the clause *)

(** C2, as the specification states it, fails in one part: the clause does
    not hold predicate templates only.  For the key [toString], which no
    declaration registered, it holds the text of the function that
    [Object.prototype] has under that name. *)
Lemma inherited_key_is_printed_into_clause :
  filters amountEntity !! "toString" = None
  ∧ filterString amountEntity (CGroup [("toString", 1)])
    = Some "function toString() { [native code] }"
  ∧ ¬ registeredTemplate amountEntity "function toString() { [native code] }"
  ∧ ¬ templatesOnly amountEntity (CGroup [("toString", 1)]).
Proof.
  assert (¬ registeredTemplate amountEntity "function toString() { [native code] }")
    as Hnot.
  { intros [key Hkey]. apply lookup_value_elem in Hkey. revert Hkey. compute_done. }
  split_and!; [vm_compute; reflexivity..|done|].
  intros (ts & Hlen & Hts & Hclause).
  destruct ts as [|t [|? ?]]; simpl in Hlen; [done| |done].
  apply Forall_cons in Hts as [Ht _]. apply Hnot.
  vm_compute in Hclause. injection Hclause as <-. exact Ht.
Qed.

(** C2 (amended): two criteria of the same shape (the same keys in the same
    Group / GroupList structure) compile to the same clause string whatever
    values they carry: the clause is the one of the shape, in which no value
    is left, and the values reach the adapter only as its second argument,
    the criteria themselves.  When every key of the criteria is registered,
    the clause consists of registered templates and separators only. *)
Theorem clause_depends_on_shape_only {Value : Type}
    (parseQueryComponent : string → Criteria Value → string)
    (this : BaseEntity) (c1 c2 : Criteria Value) :
  shape c1 = shape c2 →
  filterString this c1 = filterString this c2
  ∧ filterString this c1 = filterString this (shape c1)
  ∧ parseFilters parseQueryComponent c1 this
    = (Normal (whereOf parseQueryComponent (filterString this c1) c1), this)
  ∧ parseFilters parseQueryComponent c2 this
    = (Normal (whereOf parseQueryComponent (filterString this c1) c2), this)
  ∧ (Forall (λ key, is_Some (filters this !! key)) (criteriaKeys c1) →
     templatesOnly this c1 ∧ templatesOnly this c2).
Proof.
  intros Hshape.
  assert (filterString this c1 = filterString this c2) as Heq.
  { rewrite <- (filterString_criteriaMap (λ _, tt) this c1).
    rewrite <- (filterString_criteriaMap (λ _, tt) this c2).
    unfold shape in Hshape. by rewrite Hshape. }
  assert (∀ c : Criteria Value,
            Forall (λ key, is_Some (filters this !! key)) (criteriaKeys c) →
            templatesOnly this c) as Honly.
  { intros [groups|g|] Hall; simpl in *; [| |done].
    - assert (∃ tss : list (list string),
                Forall2 (λ (g : Group Value) ts,
                           (length ts = length g
                            ∧ Forall (registeredTemplate this) ts)
                           ∧ parseFilterObject this g = join " AND " (Some <$> ts))
                        groups tss) as [tss Htss].
      { induction groups as [|g groups IH]; [by exists []|].
        simpl in Hall. apply Forall_app in Hall as [Hg Hall].
        destruct (IH Hall) as [tss Htss].
        destruct (group_templates this g Hg) as (ts & Hts & Hclause).
        exists (ts :: tss). constructor; [|done]. split_and!; [| |done].
        - apply Forall2_length in Hts. unfold keys in Hts.
          by rewrite length_fmap in Hts.
        - apply Forall_forall. intros t Ht.
          apply list_elem_of_lookup_1 in Ht as [i Hi].
          destruct (Forall2_lookup_r _ _ _ _ _ Hts Hi) as (key & _ & Hkey).
          by exists key. }
      exists tss. split.
      + eapply Forall2_impl; [exact Htss|]. by intros g ts [? _].
      + f_equal. f_equal. clear Hall.
        induction Htss as [|g ts groups tss [_ Hg] _ IH]; [done|].
        rewrite !fmap_cons, Hg. by rewrite IH.
    - destruct (group_templates this g Hall) as (ts & Hts & Hclause).
      exists ts. split_and!.
      + apply Forall2_length in Hts. unfold keys in Hts.
        by rewrite length_fmap in Hts.
      + apply Forall_forall. intros t Ht.
        apply list_elem_of_lookup_1 in Ht as [i Hi].
        destruct (Forall2_lookup_r _ _ _ _ _ Hts Hi) as (key & _ & Hkey).
        by exists key.
      + by rewrite Hclause. }
  assert (criteriaKeys c1 = criteriaKeys c2) as Hkeys.
  { assert (∀ c : Criteria Value, criteriaKeys (shape c) = criteriaKeys c) as Hs.
    { intros [groups|g|]; simpl; [|apply keys_groupMap|done].
      f_equal. rewrite <- list_fmap_compose. apply list_fmap_ext.
      intros _ g _. apply keys_groupMap. }
    by rewrite <- (Hs c1), <- (Hs c2), Hshape. }
  split_and!; [done| |apply parseFilters_returns| |].
  - symmetry. apply filterString_criteriaMap.
  - rewrite Heq. apply parseFilters_returns.
  - intros Hall. split; apply Honly; [done|by rewrite <- Hkeys].
Qed.

(** C2 (amended) at work: the same range criteria with two different pairs
    of bounds. *)
Lemma clause_depends_on_shape_only_amount :
  shape (CGroup [("amount_gte", 1); ("amount_lte", 20)])
  = shape (CGroup [("amount_gte", 300); ("amount_lte", 4000)])
  ∧ filterString amountEntity (CGroup [("amount_gte", 1); ("amount_lte", 20)])
    = filterString amountEntity (CGroup [("amount_gte", 300); ("amount_lte", 4000)]).
Proof.
  split; [reflexivity|].
  apply (clause_depends_on_shape_only echoAdapter amountEntity
           (CGroup [("amount_gte", 1); ("amount_lte", 20)])
           (CGroup [("amount_gte", 300); ("amount_lte", 4000)])).
  reflexivity.
Defined.

(** ** Groups and group lists *)

(** The clause of [{X_gte: v1, X_lte: v2}] for a NUMBER filter X. *)
Lemma number_range_clause {Value : Type} (X : string) (o : option Options)
    (this : BaseEntity) (v1 v2 : Value) :
  let field := fieldNameOf (default (mkOptions None) o) X in
  filterString (after (addFilter X (Some filterTypes.NUMBER) o this))
    (CGroup [(X +:+ "_gte", v1); (X +:+ "_lte", v2)])
  = Some (dquote +:+ field +:+ dquote +:+ " >= ${" +:+ X +:+ "} AND "
          +:+ dquote +:+ field +:+ dquote +:+ " <= ${" +:+ X +:+ "}").
Proof.
  cbv zeta.
  set (field := fieldNameOf (default (mkOptions None) o) X).
  unfold filterString, parseFilterObject, keys.
  rewrite !fmap_cons, !fmap_nil, join_cons2.
  cbn [fst join].
  rewrite (filterAt_registered _ (X +:+ "_gte") (cmpTemplate field ">=" X)).
  2:{ apply (declared_lookup X filterTypes.NUMBER o this _ _ _ eq_refl);
        [in_table|not_proto]. }
  rewrite (filterAt_registered _ (X +:+ "_lte") (cmpTemplate field "<=" X)).
  2:{ apply (declared_lookup X filterTypes.NUMBER o this _ _ _ eq_refl);
        [in_table|not_proto]. }
  unfold cmpTemplate, joinElement. simpl default.
  by rewrite !append_assoc.
Qed.

(** C8, as the specification states it, fails for keys that are array
    indices: with the filters [1] and [amount] declared, the criteria whose
    properties were supplied as [amount] and then [1] compile with the
    condition of [1] first. *)
Lemma integer_like_key_is_compiled_first :
  Forall (λ key, is_Some (filters oneAndAmountEntity !! key)) ["amount"; "1"]
  ∧ suppliedGroup [("amount", 5); ("1", 7)] = [("1", 7); ("amount", 5)]
  ∧ filterString oneAndAmountEntity (CGroup (suppliedGroup [("amount", 5); ("1", 7)]))
    = Some (cmpTemplate "1" "=" "1" +:+ " AND " +:+ cmpTemplate "amount" "=" "amount")
  ∧ filterString oneAndAmountEntity (CGroup (suppliedGroup [("amount", 5); ("1", 7)]))
    ≠ Some (cmpTemplate "amount" "=" "amount" +:+ " AND " +:+ cmpTemplate "1" "=" "1").
Proof.
  split_and!; [repeat constructor; vm_compute; eauto|vm_compute; reflexivity..|].
  vm_compute. discriminate.
Qed.

(** C8 (amended): when every key of a single Group resolves in the filter
    map, the clause is the resolved templates joined with AND (and with
    nothing else), in the order in which [Object.keys] lists the keys: the
    array indices in ascending order, then the other keys in the order
    supplied.  With no array index among the keys that is the order
    supplied; so for a NUMBER filter X the criteria [{X_gte: v1, X_lte: v2}]
    compile to the X_gte condition AND the X_lte condition. *)
Theorem group_and_join {Value : Type}
    (parseQueryComponent : string → Criteria Value → string)
    (this : BaseEntity) (supplied : list (string * Value)) :
  Forall (λ key, is_Some (filters this !! key)) supplied.*1 →
  (∃ templates : list string,
      Forall2 (λ key t, filters this !! key = Some t)
        (keys (suppliedGroup supplied)) templates
      ∧ filterString this (CGroup (suppliedGroup supplied))
        = Some (join " AND " (Some <$> templates))
      ∧ parseFilters parseQueryComponent (CGroup (suppliedGroup supplied)) this
        = (Normal (whereOf parseQueryComponent
                     (Some (join " AND " (Some <$> templates)))
                     (CGroup (suppliedGroup supplied))),
           this))
  ∧ (Forall (λ key, arrayIndex key = None) supplied.*1 →
     suppliedGroup supplied = supplied)
  ∧ (∀ X o this0 (v1 v2 : Value),
      let field := fieldNameOf (default (mkOptions None) o) X in
      suppliedGroup [(X +:+ "_gte", v1); (X +:+ "_lte", v2)]
      = [(X +:+ "_gte", v1); (X +:+ "_lte", v2)]
      ∧ filterString (after (addFilter X (Some filterTypes.NUMBER) o this0))
          (CGroup [(X +:+ "_gte", v1); (X +:+ "_lte", v2)])
        = Some (dquote +:+ field +:+ dquote +:+ " >= ${" +:+ X +:+ "} AND "
                +:+ dquote +:+ field +:+ dquote +:+ " <= ${" +:+ X +:+ "}")).
Proof.
  intros Hall. split_and!.
  - assert (Forall (λ key, is_Some (filters this !! key))
              (keys (suppliedGroup supplied))) as Hall'.
    { unfold keys, suppliedGroup. by rewrite ownEnumerable_Permutation. }
    destruct (group_templates this (suppliedGroup supplied) Hall')
      as (templates & Ht & Hclause).
    exists templates.
    assert (filterString this (CGroup (suppliedGroup supplied))
            = Some (join " AND " (Some <$> templates))) as Hc
      by (simpl; by rewrite Hclause).
    split_and!; [done|done|]. rewrite parseFilters_returns. by rewrite Hc.
  - intros Hidx. apply ownEnumerable_no_index.
    by rewrite Forall_fmap in Hidx.
  - intros X o this0 v1 v2. cbv zeta. split; [|apply number_range_clause].
    apply ownEnumerable_no_index.
    repeat constructor; by apply suffixed_not_index.
Qed.

(** C8 (amended) at work: [{amount_gte: 1, amount_lte: 20}] against
    [amountEntity]. *)
Lemma group_and_join_amount :
  Forall (λ key, is_Some (filters amountEntity !! key)) ["amount_gte"; "amount_lte"]
  ∧ suppliedGroup [("amount_gte", 1); ("amount_lte", 20)]
    = [("amount_gte", 1); ("amount_lte", 20)].
Proof.
  assert (Forall (λ key, is_Some (filters amountEntity !! key))
            ["amount_gte"; "amount_lte"]) as Hall
    by (repeat constructor; vm_compute; eauto).
  split; [exact Hall|].
  destruct (group_and_join echoAdapter amountEntity
              [("amount_gte", 1); ("amount_lte", 20)] Hall) as (_ & Hsame & _).
  apply Hsame. repeat constructor.
Defined.

(** C3, as the specification states it, fails: the group clauses are not
    wrapped in parentheses. *)
Lemma group_list_has_no_parentheses :
  filterString amountEntity (CGroupList twoGroups)
  = Some (cmpTemplate "amount" "=" "amount" +:+ " OR "
          +:+ cmpTemplate "amount" ">" "amount" +:+ " AND "
          +:+ cmpTemplate "amount" "<" "amount")
  ∧ parenthesizedGroupList amountEntity twoGroups
    = "(" +:+ cmpTemplate "amount" "=" "amount" +:+ ") OR ("
      +:+ cmpTemplate "amount" ">" "amount" +:+ " AND "
      +:+ cmpTemplate "amount" "<" "amount" +:+ ")"
  ∧ filterString amountEntity (CGroupList twoGroups)
    ≠ Some (parenthesizedGroupList amountEntity twoGroups).
Proof. split_and!; [vm_compute; reflexivity..|vm_compute; discriminate]. Qed.

(** C3 (amended): a GroupList compiles group by group: each group gives the
    AND-joined clause it gives on its own, and these clauses, as they are and
    without parentheses, are joined with [" OR "] in list order; N groups
    give N-1 separators. *)
Theorem group_list_or_join {Value : Type}
    (parseQueryComponent : string → Criteria Value → string)
    (this : BaseEntity) (groups : list (Group Value)) :
  let clauses := parseFilterObject this <$> groups in
  Forall2 (λ g clause,
             filterString this (CGroup g) = Some clause
             ∧ clause = join " AND " (filterAt this <$> keys g))
          groups clauses
  ∧ filterString this (CGroupList groups) = Some (join " OR " (Some <$> clauses))
  ∧ String.length (join " OR " (Some <$> clauses))
    = sum_list (String.length <$> clauses) + 4 * (length groups - 1)
  ∧ (∀ g1 g2 rest, groups = g1 :: g2 :: rest →
       filterString this (CGroupList groups)
       = Some (parseFilterObject this g1 +:+ " OR "
               +:+ join " OR " (Some <$> (parseFilterObject this <$> g2 :: rest))))
  ∧ parseFilters parseQueryComponent (CGroupList groups) this
    = (Normal (whereOf parseQueryComponent
                 (Some (join " OR " (Some <$> clauses))) (CGroupList groups)),
       this).
Proof.
  cbv zeta.
  assert (filterString this (CGroupList groups)
          = Some (join " OR " (Some <$> (parseFilterObject this <$> groups))))
    as Hclause.
  { simpl. by rewrite <- list_fmap_compose. }
  split_and!.
  - apply Forall2_fmap_r, Forall_Forall2_diag, Forall_forall. by intros g _.
  - exact Hclause.
  - rewrite join_length, <- !list_fmap_compose, !length_fmap.
    f_equal.
  - intros g1 g2 rest ->. rewrite Hclause. reflexivity.
  - rewrite parseFilters_returns. by rewrite Hclause.
Qed.

(** * Further properties of the code *)

(** ** What a declaration leaves behind *)

(** X1: declaring a filter a second time with the same arguments changes
    nothing: the entity is the one the first declaration left. *)
Theorem addFilter_idempotent
    (X : string) (ty : option string) (o : option Options) (this : BaseEntity) :
  addFilter X ty o (after (addFilter X ty o this))
  = (outcome (addFilter X ty o this), after (addFilter X ty o this)).
Proof.
  rewrite addFilter_typeOf. set (t := typeOf ty).
  assert (after (addFilter X (Some t) o (after (addFilter X (Some t) o this)))
          = after (addFilter X (Some t) o this)) as Hafter.
  { rewrite !after_addFilter. apply entity_eq; [done|done|].
    simpl. apply assignAll_idemp, NoDup_rowsOf. }
  assert (∀ e, outcome (addFilter X (Some t) o e)
               = outcome (addFilter X (Some t) o this)) as Hout.
  { intros e. rewrite !registers_table. by destruct (variantTable t X _). }
  rewrite <- Hafter at 2.
  rewrite <- (Hout (after (addFilter X (Some t) o this))).
  by destruct (addFilter X (Some t) o (after (addFilter X (Some t) o this))).
Qed.

(** X2: two declarations whose variant names do not meet commute, up to the
    order in which [getFilters] lists the names: whichever is made first,
    every key holds the same template, the same names are registered, the
    other fields are the same, and every criteria compiles to the same
    clause. *)
Theorem independent_declarations_commute
    (X Y : string) (tX tY : option string) (oX oY : option Options)
    (this : BaseEntity) :
  (∀ k, k ∈ (rowsOf X (typeOf tX) oX).*1 →
        k ∈ (rowsOf Y (typeOf tY) oY).*1 → False) →
  let e1 := after (addFilter Y tY oY (after (addFilter X tX oX this))) in
  let e2 := after (addFilter X tX oX (after (addFilter Y tY oY this))) in
  (∀ k, filters e1 !! k = filters e2 !! k)
  ∧ (∀ k, k ∈ getFilters e1 ↔ k ∈ getFilters e2)
  ∧ defaultFieldSet e1 = defaultFieldSet e2
  ∧ fields e1 = fields e2
  ∧ (∀ (Value : Type) (c : Criteria Value), filterString e1 c = filterString e2 c).
Proof.
  intros Hdisj. cbv zeta.
  rewrite (addFilter_typeOf X), (addFilter_typeOf Y), !after_addFilter.
  set (tblX := rowsOf X (typeOf tX) oX) in *.
  set (tblY := rowsOf Y (typeOf tY) oY) in *.
  assert (∀ k, assignAll tblY (assignAll tblX (filters this)) !! k
               = assignAll tblX (assignAll tblY (filters this)) !! k) as Hlookup.
  { intros k. destruct (decide (k ∈ tblY.*1)) as [HY|HY].
    - assert (k ∉ tblX.*1) as HX by (intros ?; by apply (Hdisj k)).
      rewrite (lookup_assignAll_other tblX _ k HX).
      apply lookup_assignAll_local. by apply lookup_assignAll_other.
    - rewrite (lookup_assignAll_other tblY _ k HY).
      apply lookup_assignAll_local. symmetry. by apply lookup_assignAll_other. }
  split_and!; [exact Hlookup| |done|done|].
  - intros k. rewrite !elem_of_getFilters. simpl. by rewrite Hlookup.
  - intros Value c. apply filterString_agree. intros k _. apply Hlookup.
Qed.

(** X2 at work: [amount] (NUMBER) and [status] (TEXT) on a fresh entity. *)
Lemma independent_declarations_commute_amount_status :
  filters (after (addFilter "status" (Some filterTypes.TEXT) None
            (after (addFilter "amount" None None constructor)))) !! "amount_gt"
  = filters (after (addFilter "amount" None None
              (after (addFilter "status" (Some filterTypes.TEXT) None constructor))))
      !! "amount_gt".
Proof.
  apply (independent_declarations_commute "amount" "status" None
           (Some filterTypes.TEXT) None None constructor).
  intros k H1 H2. revert H1. apply (bool_decide_unpack _).
  revert k H2. apply Forall_forall. compute_done.
Defined.

(** X3: [addFilter] only ever adds to the entity: every registered name
    stays registered, every key outside the variant names of the declaration
    keeps its template, and the other fields of the entity are untouched;
    this holds for every argument, an unsupported type included. *)
Theorem addFilter_only_adds
    (X : string) (ty : option string) (o : option Options) (this : BaseEntity) :
  let this' := after (addFilter X ty o this) in
  getFilters this ⊆ getFilters this'
  ∧ (∀ k, k ∉ (rowsOf X (typeOf ty) o).*1 → filters this' !! k = filters this !! k)
  ∧ defaultFieldSet this' = defaultFieldSet this
  ∧ fields this' = fields this.
Proof.
  cbv zeta. rewrite addFilter_typeOf, after_addFilter. simpl.
  split_and!; [|by intros; apply lookup_assignAll_other|done|done].
  intros k. rewrite !elem_of_getFilters. simpl.
  rewrite lookup_assignAll_is_Some by apply NoDup_rowsOf. by right.
Qed.

(** ** Templates *)

Lemma table_templates_quoted (X ty field : string) tbl k t :
  variantTable ty X field = Some tbl → (k, t) ∈ tbl → ∃ rest, t = dquote +:+ rest.
Proof.
  unfold variantTable.
  repeat (destruct (String.eqb ty _);
          [intros [= <-]; rewrite !elem_of_cons, elem_of_nil;
           intros H; repeat (destruct H as [[= _ ->]|H]; [by eexists|]); done|]).
  done.
Qed.

Lemma templatesQuoted_constructor : templatesQuoted constructor.
Proof. intros k t. unfold constructor. simpl. by rewrite lookup_empty_object. Qed.

Lemma templatesQuoted_addFilter (X : string) (ty : option string) o this :
  templatesQuoted this → templatesQuoted (after (addFilter X ty o this)).
Proof.
  intros Hinv k t. rewrite addFilter_typeOf, after_addFilter. simpl.
  intros Hk. apply lookup_assignAll_Some in Hk as [Hin|Hold]; [|by eapply Hinv].
  unfold rowsOf in Hin.
  destruct (variantTable (typeOf ty) X _) as [tbl|] eqn:Htbl; simpl in Hin.
  - by eapply table_templates_quoted.
  - by apply elem_of_nil in Hin.
Qed.

(** X4: registered templates always start with a quoted column name:
    [addFilter] keeps this, whatever its arguments and whether it returns or
    throws, so it holds of every entity built from a fresh one by
    declarations, and no registered template is ever empty. *)
Theorem addFilter_keeps_templates_quoted
    (X : string) (ty : option string) (o : option Options) (this : BaseEntity) :
  templatesQuoted this →
  templatesQuoted (after (addFilter X ty o this))
  ∧ (∀ k, filters (after (addFilter X ty o this)) !! k ≠ Some "").
Proof.
  intros Hinv.
  pose proof (templatesQuoted_addFilter X ty o this Hinv) as Hafter.
  split; [done|]. intros k Hk. by destruct (Hafter k "" Hk) as [rest ?].
Qed.

(** X4 at work: a fresh entity, then [amount] declared. *)
Lemma addFilter_keeps_templates_quoted_amount :
  templatesQuoted constructor ∧ templatesQuoted amountEntity.
Proof.
  split; [apply templatesQuoted_constructor|].
  apply (addFilter_keeps_templates_quoted "amount" None None constructor).
  apply templatesQuoted_constructor.
Defined.

(** X5: a [realName] override reaches the comparison templates only, and
    only when it is not empty: the X_in and X_like templates quote the filter
    name X whatever [realName] is, and an empty [realName] is the same as
    none. *)
Theorem realName_scope (X : string) (ty : option string) (o : option Options)
    (this : BaseEntity) :
  filters (after (addFilter X (Some filterTypes.TEXT) o this)) !! (X +:+ "_in")
    = Some (inTemplate X)
  ∧ filters (after (addFilter X (Some filterTypes.TEXT) o this)) !! (X +:+ "_like")
    = Some (likeTemplate X)
  ∧ filters (after (addFilter X (Some filterTypes.NUMBER) o this)) !! (X +:+ "_in")
    = Some (inTemplate X)
  ∧ filters (after (addFilter X (Some filterTypes.TEXT) o this)) !! (X +:+ "_neql")
    = Some (cmpTemplate (fieldNameOf (default (mkOptions None) o) X) "<>" X)
  ∧ addFilter X ty (Some (mkOptions (Some ""))) this = addFilter X ty None this
  ∧ (∀ c r, fieldNameOf (mkOptions (Some (String c r))) X = String c r).
Proof.
  split_and!; try done.
  - apply (declared_lookup X filterTypes.TEXT o this _ _ _ eq_refl);
      [in_table|not_proto].
  - apply (declared_lookup X filterTypes.TEXT o this _ _ _ eq_refl);
      [in_table|not_proto].
  - apply (declared_lookup X filterTypes.NUMBER o this _ _ _ eq_refl);
      [in_table|not_proto].
  - apply (declared_lookup X filterTypes.TEXT o this _ _ _ eq_refl);
      [in_table|not_proto].
Qed.

(** ** Colliding variant names *)

Lemma cmpTemplate_is_not_inTemplate (field op N X : string) :
  cmpTemplate field op N ≠ inTemplate X.
Proof.
  unfold cmpTemplate, inTemplate.
  change "_in:csv})" with ("_in:csv}" +:+ ")").
  rewrite <- !append_assoc.
  apply append_last_differs. compute_done.
Qed.

(** X6: the variant names of different filters share one name space: after
    X is declared as TEXT or NUMBER, declaring a filter whose own name is
    X_in (as BOOLEAN, TEXT or NUMBER) replaces the list template registered
    for X's variant X_in by the equality template of the new filter. *)
Theorem variant_names_collide
    (X t1 t2 : string) (o1 o2 : option Options) (this : BaseEntity) :
  t1 ∈ [filterTypes.TEXT; filterTypes.NUMBER] →
  t2 ∈ [filterTypes.BOOLEAN; filterTypes.TEXT; filterTypes.NUMBER] →
  let this1 := after (addFilter X (Some t1) o1 this) in
  let this2 := after (addFilter (X +:+ "_in") (Some t2) o2 this1) in
  filters this1 !! (X +:+ "_in") = Some (inTemplate X)
  ∧ filters this2 !! (X +:+ "_in")
    = Some (cmpTemplate (fieldNameOf (default (mkOptions None) o2) (X +:+ "_in"))
              "=" (X +:+ "_in"))
  ∧ filters this2 !! (X +:+ "_in") ≠ filters this1 !! (X +:+ "_in").
Proof.
  intros H1 H2. cbv zeta.
  assert (X +:+ "_in" ≠ "__proto__") as Hnp by not_proto.
  assert (filters (after (addFilter X (Some t1) o1 this)) !! (X +:+ "_in")
          = Some (inTemplate X)) as Hfirst.
  { rewrite !elem_of_cons, elem_of_nil in H1.
    destruct H1 as [->|[->|[]]];
      [apply (declared_lookup X filterTypes.TEXT o1 this _ _ _ eq_refl)
      |apply (declared_lookup X filterTypes.NUMBER o1 this _ _ _ eq_refl)];
      [in_table|done|in_table|done]. }
  assert (filters (after (addFilter (X +:+ "_in") (Some t2) o2
                            (after (addFilter X (Some t1) o1 this))))
            !! (X +:+ "_in")
          = Some (cmpTemplate (fieldNameOf (default (mkOptions None) o2) (X +:+ "_in"))
                    "=" (X +:+ "_in"))) as Hsecond.
  { rewrite !elem_of_cons, elem_of_nil in H2.
    destruct H2 as [->|[->|[->|[]]]];
      [apply (declared_lookup (X +:+ "_in") filterTypes.BOOLEAN o2 _ _ _ _ eq_refl)
      |apply (declared_lookup (X +:+ "_in") filterTypes.TEXT o2 _ _ _ _ eq_refl)
      |apply (declared_lookup (X +:+ "_in") filterTypes.NUMBER o2 _ _ _ _ eq_refl)];
      [in_table|done|in_table|done|in_table|done]. }
  split_and!; [done|done|].
  rewrite Hfirst, Hsecond. intros Heq.
  eapply cmpTemplate_is_not_inTemplate. by apply (inj Some) in Heq.
Qed.

(** X6 at work: [amount] declared with the default type, then a TEXT filter
    named [amount_in]. *)
Lemma variant_names_collide_amount :
  filters (after (addFilter "amount_in" (Some filterTypes.TEXT) None amountEntity))
    !! "amount_in"
  ≠ filters amountEntity !! "amount_in".
Proof.
  apply (variant_names_collide "amount" filterTypes.NUMBER filterTypes.TEXT
           None None constructor); compute_done.
Defined.

(** ** When the compiler emits a clause *)

(** X7: for a single Group, [parseFilters] returns the empty string (no
    WHERE clause) exactly when the group has no key, or has one key only and
    [this.filters[key]] prints as nothing: the key is registered with the
    empty template, or it is neither registered nor the name of a member of
    [Object.prototype].  So criteria made of one such unknown key are
    silently compiled to no condition. *)
Theorem group_without_clause_iff {Value : Type}
    (parseQueryComponent : string → Criteria Value → string)
    (this : BaseEntity) (g : Group Value) :
  parseFilters parseQueryComponent (CGroup g) this = (Normal "", this)
  ↔ g = [] ∨ ∃ key v, g = [(key, v)]
                      ∧ (filters this !! key = Some ""
                         ∨ (filters this !! key = None
                            ∧ objectPrototype key = JUndefined)).
Proof.
  rewrite parseFilters_empty_iff. simpl. unfold parseFilterObject, keys.
  assert (∀ key, joinElement (filterAt this key) = ""
                 ↔ filters this !! key = Some ""
                   ∨ (filters this !! key = None ∧ objectPrototype key = JUndefined))
    as Hprint.
  { intros key. unfold filterAt, getProperty.
    destruct (filters this !! key) as [t|] eqn:Hk; simpl.
    - split; [intros ->; by left|by intros [[= ->]|[[=] _]]].
    - pose proof (inherited_text_not_empty key) as Hne.
      destruct (objectPrototype key); simpl in *;
        (split; [intros H; try (right; done); by rewrite H in Hne
                |intros [[=]|[_ H]]; done]). }
  split.
  - intros [[=]|[= H]]. apply join_empty_iff in H; [|simpl; lia].
    destruct H as [H|(x & H & Hx)].
    + left. by apply fmap_nil_inv, fmap_nil_inv in H.
    + right. destruct g as [|[key v] [|? ?]]; simplify_eq/=.
      exists key, v. split; [done|]. by apply Hprint.
  - intros [->|(key & v & -> & H)]; right; [done|].
    simpl. f_equal. by apply Hprint.
Qed.

(** X8: for a GroupList, [parseFilters] returns the empty string exactly when
    the list is empty or holds one group whose own clause is empty; a list of
    two or more groups always gets a WHERE clause, even when every group in
    it is empty. *)
Theorem group_list_without_clause_iff {Value : Type}
    (parseQueryComponent : string → Criteria Value → string)
    (this : BaseEntity) (groups : list (Group Value)) :
  (parseFilters parseQueryComponent (CGroupList groups) this = (Normal "", this)
   ↔ groups = [] ∨ ∃ g, groups = [g] ∧ parseFilterObject this g = "")
  ∧ (∀ g1 g2 rest, groups = g1 :: g2 :: rest →
       ∃ clause, clause ≠ ""
         ∧ filterString this (CGroupList groups) = Some clause
         ∧ parseFilters parseQueryComponent (CGroupList groups) this
           = (Normal ("WHERE " +:+ parseQueryComponent clause (CGroupList groups)),
              this)).
Proof.
  split.
  - rewrite parseFilters_empty_iff. simpl. split.
    + intros [[=]|[= H]]. apply join_empty_iff in H; [|simpl; lia].
      destruct H as [H|(x & H & Hx)].
      * left. by apply fmap_nil_inv in H.
      * right. destruct groups as [|g [|? ?]]; simplify_eq/=. by exists g.
    + intros [->|(g & -> & H)]; right; simpl; by rewrite ?H.
  - intros g1 g2 rest ->.
    destruct (filterString this (CGroupList (g1 :: g2 :: rest))) as [clause|] eqn:Hc;
      [|done].
    assert (clause ≠ "") as Hne.
    { intros ->. unfold filterString in Hc. apply (inj Some) in Hc.
      apply join_empty_iff in Hc; [|simpl; lia].
      by destruct Hc as [?|(? & ? & _)]. }
    exists clause. split_and!; [done|done|].
    rewrite parseFilters_returns, Hc. by destruct clause.
Qed.

(** X9: on an entity whose templates are all quoted (as [addFilter] keeps
    them), a Group that is not empty and whose keys are all registered always
    compiles to a clause that is not empty, and [parseFilters] returns WHERE
    followed by what the adapter makes of that clause and the criteria. *)
Theorem registered_group_gets_where {Value : Type}
    (parseQueryComponent : string → Criteria Value → string)
    (this : BaseEntity) (g : Group Value) :
  templatesQuoted this →
  g ≠ [] →
  Forall (λ key, is_Some (filters this !! key)) (keys g) →
  ∃ rest,
    filterString this (CGroup g) = Some (dquote +:+ rest)
    ∧ parseFilters parseQueryComponent (CGroup g) this
      = (Normal ("WHERE " +:+ parseQueryComponent (dquote +:+ rest) (CGroup g)), this).
Proof.
  intros Hinv Hne Hall.
  destruct g as [|[key v] g]; [done|].
  apply Forall_cons in Hall as [[t Ht] _]. simpl in Ht.
  destruct (Hinv key t Ht) as [r ->].
  destruct (join_head_quoted " AND " r (filterAt this key)
              (filterAt this <$> keys g)) as [rest Hrest].
  { by rewrite (filterAt_registered _ _ _ Ht). }
  exists rest.
  assert (filterString this (CGroup ((key, v) :: g)) = Some (dquote +:+ rest)) as Hc.
  { simpl. f_equal. exact Hrest. }
  split; [done|]. rewrite parseFilters_returns, Hc. reflexivity.
Qed.

(** X9 at work: [{amount_gte: 1, amount_lte: 20}] against [amountEntity]. *)
Lemma registered_group_gets_where_amount :
  ∃ rest,
    filterString amountEntity (CGroup [("amount_gte", 1); ("amount_lte", 20)])
    = Some (dquote +:+ rest)
    ∧ parseFilters echoAdapter (CGroup [("amount_gte", 1); ("amount_lte", 20)])
        amountEntity
      = (Normal ("WHERE " +:+ echoAdapter (dquote +:+ rest)
                   (CGroup [("amount_gte", 1); ("amount_lte", 20)])),
         amountEntity).
Proof.
  apply (registered_group_gets_where echoAdapter amountEntity
           [("amount_gte", 1); ("amount_lte", 20)]).
  - apply (templatesQuoted_addFilter "amount" None None constructor).
    apply templatesQuoted_constructor.
  - done.
  - repeat constructor; vm_compute; eauto.
Defined.

(** X10: declaring and compiling fit together: after a declaration, the
    criteria that consist of one of its variant names alone (the bare name
    [__proto__], which is never registered, apart) compile to the very
    template the declaration registered for that name, and [parseFilters]
    returns WHERE followed by what the adapter makes of it. *)
Theorem declared_variant_compiles_to_its_template {Value : Type}
    (parseQueryComponent : string → Criteria Value → string)
    (X : string) (ty : option string) (o : option Options) (this : BaseEntity)
    (k t : string) (v : Value) :
  (k, t) ∈ rowsOf X (typeOf ty) o →
  k ≠ "__proto__" →
  let this' := after (addFilter X ty o this) in
  filterString this' (CGroup [(k, v)]) = Some t
  ∧ parseFilters parseQueryComponent (CGroup [(k, v)]) this'
    = (Normal ("WHERE " +:+ parseQueryComponent t (CGroup [(k, v)])), this').
Proof.
  intros Hin Hnp. cbv zeta.
  assert (filters (after (addFilter X ty o this)) !! k = Some t) as Hk.
  { rewrite addFilter_typeOf, after_addFilter. simpl.
    apply lookup_assignAll_row; [apply NoDup_rowsOf|done|done]. }
  assert (∃ rest, t = dquote +:+ rest) as [rest ->].
  { unfold rowsOf in Hin.
    destruct (variantTable (typeOf ty) X _) as [tbl|] eqn:Htbl; simpl in Hin.
    - by eapply table_templates_quoted.
    - by apply elem_of_nil in Hin. }
  assert (filterString (after (addFilter X ty o this)) (CGroup [(k, v)])
          = Some (dquote +:+ rest)) as Hc.
  { unfold filterString, parseFilterObject, keys. simpl.
    by rewrite (filterAt_registered _ _ _ Hk). }
  split; [done|]. rewrite parseFilters_returns, Hc. reflexivity.
Qed.

(** X10 at work: [status] declared as TEXT, then [{status_like: 7}]. *)
Lemma declared_variant_compiles_to_its_template_status :
  ("status_like", likeTemplate "status")
    ∈ rowsOf "status" (typeOf (Some filterTypes.TEXT)) None
  ∧ filterString (after (addFilter "status" (Some filterTypes.TEXT) None constructor))
      (CGroup [("status_like", 7)])
    = Some (likeTemplate "status").
Proof.
  split; [compute_done|].
  apply (declared_variant_compiles_to_its_template echoAdapter "status"
           (Some filterTypes.TEXT) None constructor "status_like"
           (likeTemplate "status") 7); [compute_done|done].
Defined.

(** ** Compiling piece by piece *)



(** X12: likewise for a GroupList: for two lists of groups that are not
    empty, the clause of their concatenation is the clause of the first,
    [" OR "], and the clause of the second; and a list of one group has the
    clause of that group. *)
Theorem group_list_clause_append {Value : Type} (this : BaseEntity)
    (l1 l2 : list (Group Value)) :
  l1 ≠ [] → l2 ≠ [] →
  ∃ c1 c2,
    filterString this (CGroupList l1) = Some c1
    ∧ filterString this (CGroupList l2) = Some c2
    ∧ filterString this (CGroupList (l1 ++ l2)) = Some (c1 +:+ " OR " +:+ c2)
    ∧ ∀ g : Group Value,
        filterString this (CGroupList [g]) = filterString this (CGroup g).
Proof.
  intros H1 H2. eexists _, _. split_and!; [done|done| |done].
  simpl. f_equal. rewrite fmap_app.
  apply join_app; intros H; by apply fmap_nil_inv in H.
Qed.

(** X12 at work: [twoGroups] as its first group followed by its second. *)
Lemma group_list_clause_append_amount :
  ∃ c1 c2,
    filterString amountEntity (CGroupList [[("amount", 5)]]) = Some c1
    ∧ filterString amountEntity
        (CGroupList [[("amount_gt", 7); ("amount_lt", 9)]]) = Some c2
    ∧ filterString amountEntity (CGroupList twoGroups)
      = Some (c1 +:+ " OR " +:+ c2)
    ∧ ∀ g : Group nat,
        filterString amountEntity (CGroupList [g]) = filterString amountEntity (CGroup g).
Proof.
  by apply (group_list_clause_append amountEntity [[("amount", 5)]]
              [[("amount_gt", 7); ("amount_lt", 9)]]).
Defined.

(** ** The height summary of the network *)

Section HeightSummaryFacts.
Context {Double : Type}.
Variable zero : Double.
Variable plusHeight : Double → Z → Double.
Variable dividedBy : Double → nat → Double.

(** The maximum kept by the loop, from any starting pair. *)
Lemma heightLoop_spec (l : list PeerStatus) (m : Z) (s : Double) :
  let acc := foldl (heightStep plusHeight) (m, s) l in
  (m ≤ acc.1)%Z
  ∧ (∀ p, p ∈ l → (height p ≤ acc.1)%Z)
  ∧ (acc.1 = m ∨ ∃ p, p ∈ l ∧ height p = acc.1).
Proof.
  cbv zeta. revert m s.
  induction l as [|p l IH]; intros m s.
  - simpl. split_and!; [lia| |by left].
    intros p Hp. by apply elem_of_nil in Hp.
  - change (foldl (heightStep plusHeight) (m, s) (p :: l))
      with (foldl (heightStep plusHeight)
              (if (height p >? m)%Z then height p else m, plusHeight s (height p)) l).
    destruct (IH (if (height p >? m)%Z then height p else m)
                 (plusHeight s (height p)))
      as (Hle & Hall & Hpeak).
    set (r := (foldl (heightStep plusHeight)
                (if (height p >? m)%Z then height p else m, plusHeight s (height p))
                l).1) in *.
    clearbody r.
    destruct (Z.gtb_spec (height p) m) as [Hgt|Hngt].
    + split_and!; [lia| |].
      * intros q Hq. apply elem_of_cons in Hq as [Hq|Hq]; [subst q; lia|by apply Hall].
      * right. destruct Hpeak as [Heq|(q & Hq & Hh)].
        -- exists p. split; [apply elem_of_cons; by left|lia].
        -- exists q. split; [apply elem_of_cons; by right|done].
    + split_and!; [lia| |].
      * intros q Hq. apply elem_of_cons in Hq as [Hq|Hq]; [subst q; lia|by apply Hall].
      * destruct Hpeak as [Heq|(q & Hq & Hh)]; [by left|].
        right. exists q. split; [apply elem_of_cons; by right|done].
Qed.

(** X13: the maximum height reported is the largest peer height, but never
    less than 1: it is at least 1 and at least every peer's height, and it is
    either 1 or the height of one of the peers; with no peer at all it is 1. *)
Theorem maxHeight_is_peak_floored_at_one (peerStatusList : list PeerStatus) :
  let r := getMaxAndAvgHeight zero plusHeight dividedBy peerStatusList in
  (1 ≤ maxHeight r)%Z
  ∧ (∀ p, p ∈ peerStatusList → (height p ≤ maxHeight r)%Z)
  ∧ (maxHeight r = 1%Z ∨ ∃ p, p ∈ peerStatusList ∧ height p = maxHeight r)
  ∧ maxHeight (getMaxAndAvgHeight zero plusHeight dividedBy []) = 1%Z.
Proof.
  cbv zeta. unfold getMaxAndAvgHeight. simpl.
  destruct (heightLoop_spec peerStatusList 1 zero) as (H1 & H2 & H3).
  split_and!; done.
Qed.
End HeightSummaryFacts.

(** ** Declarations and clauses that do not meet *)

(** X16: a declaration none of whose variant names occurs among the keys of
    a criteria leaves the clause of that criteria as it was, and so what
    [parseFilters] returns for it. *)
Theorem unrelated_declaration_keeps_clause {Value : Type}
    (parseQueryComponent : string → Criteria Value → string)
    (X : string) (ty : option string) (o : option Options) (this : BaseEntity)
    (c : Criteria Value) :
  (∀ k, k ∈ criteriaKeys c → k ∉ (rowsOf X (typeOf ty) o).*1) →
  filterString (after (addFilter X ty o this)) c = filterString this c
  ∧ outcome (parseFilters parseQueryComponent c (after (addFilter X ty o this)))
    = outcome (parseFilters parseQueryComponent c this).
Proof.
  intros Hkeys.
  assert (filterString (after (addFilter X ty o this)) c = filterString this c)
    as Hc.
  { apply filterString_agree. intros k Hk.
    rewrite addFilter_typeOf, after_addFilter. simpl.
    apply lookup_assignAll_other. by apply Hkeys. }
  split; [done|]. rewrite !parseFilters_returns. simpl. by rewrite Hc.
Qed.

(** X16 at work: [status] declared after [amount]; the range criteria on
    [amount] compile as before. *)
Lemma unrelated_declaration_keeps_clause_status :
  filterString (after (addFilter "status" (Some filterTypes.TEXT) None amountEntity))
    (CGroup [("amount_gte", 1); ("amount_lte", 20)])
  = filterString amountEntity (CGroup [("amount_gte", 1); ("amount_lte", 20)]).
Proof.
  apply (unrelated_declaration_keeps_clause echoAdapter "status"
           (Some filterTypes.TEXT) None amountEntity
           (CGroup [("amount_gte", 1); ("amount_lte", 20)])).
  apply Forall_forall. compute_done.
Defined.
